(** * The chat widget's conversation controller

    A shallow embedding of the two client scripts of the repository:

    - [AppStatic]: [app/static/script.js], the full-page chat box;
    - [Popup]: the popup widget script (the one the page template with
      [chatButton], [chatPopup] and [closeButton] loads), which adds
      [toggleChat] and [addThinkingIndicator].

    Both define an [async function sendMessage].  An async function runs
    synchronously up to its first [await] and is resumed by the event loop
    when the awaited promise settles, so each [sendMessage] is embedded as
    three segments: the synchronous prefix, the code after [await fetch(...)]
    and the code after [await response.json()].  The [try]/[catch] of the
    source spans the two latter segments, a rejected promise being a [throw]
    at the point of resumption. *)

From Stdlib Require Import List Bool Arith NArith ZArith Lia String Ascii.
From Stdlib Require Import DecimalString Permutation.
Import ListNotations.

Set Implicit Arguments.
Set Warnings "-register-all".

Declare Scope js_scope.
Delimit Scope js_scope with js.
Open Scope js_scope.
Reserved Notation "x <- c1 ;; c2"
  (at level 61, c1 at next level, right associativity).
Reserved Notation "c1 ;; c2" (at level 61, right associativity).

(** ** JavaScript strings *)

(** A string is its sequence of UTF-16 code units. *)
Definition jsstring := list N.

(** A literal of the source (the literals of both scripts are ASCII). *)
Definition js (s : string) : jsstring :=
  map N_of_ascii (list_ascii_of_string s).

(** [WhiteSpace] and [LineTerminator] of ECMAScript, the code points that
    [String.prototype.trim] strips: TAB, LF, VT, FF, CR, SP, NBSP, the other
    space separators (U+1680, U+2000..U+200A, U+202F, U+205F, U+3000), LS, PS
    and the byte order mark.  All of them are single code units. *)
Definition is_white_space (c : N) : bool :=
  match c with
  | 9 | 10 | 11 | 12 | 13 | 32 | 160 => true
  | 5760 | 8232 | 8233 | 8239 | 8287 | 12288 | 65279 => true
  | _ => (8192 <=? c) && (c <=? 8202)
  end%N.

Fixpoint trimStart (s : jsstring) : jsstring :=
  match s with
  | [] => []
  | c :: rest => if is_white_space c then trimStart rest else s
  end.

Definition trimEnd (s : jsstring) : jsstring := rev (trimStart (rev s)).

(** [String.prototype.trim]. *)
Definition trim (s : jsstring) : jsstring := trimEnd (trimStart s).

(** [s === ''] *)
Definition is_empty (s : jsstring) : bool :=
  match s with [] => true | _ :: _ => false end.

Fixpoint starts_with (p s : jsstring) : bool :=
  match p, s with
  | [], _ => true
  | _ :: _, [] => false
  | a :: p', b :: s' => (a =? b)%N && starts_with p' s'
  end.

(** [s.includes(p)] *)
Fixpoint includes (p s : jsstring) : bool :=
  starts_with p s ||
  match s with
  | [] => false
  | _ :: s' => includes p s'
  end.

(** The decimal numeral of a non-negative integer, as a template literal
    prints [response.status]. *)
Definition decimal (n : N) : jsstring :=
  js (NilZero.string_of_uint (N.to_uint n)).

(** ** Exceptions *)

Record exception := {
  name : jsstring;
  message : jsstring;
  stack : jsstring
}.

Inductive result (A : Type) : Type :=
| Ok (a : A)
| Throw (e : exception).
Arguments Ok {A} a.
Arguments Throw {A} e.

(** How a promise settles. *)
Inductive settled (A : Type) : Type :=
| Fulfilled (a : A)
| Rejected (e : exception).
Arguments Fulfilled {A} a.
Arguments Rejected {A} e.

(** ** The host engine

    What the scripts leave to the engine that runs them: the number type of
    the language, of which the scripts use truthiness and conversion to a
    string only, and the exception objects that the engine and the DOM
    create themselves, whose texts differ between browsers. *)
Class Engine := {
  number : Type;
  (** [ToBoolean]: false for [+0], [-0] and [NaN] *)
  number_truthy : number -> bool;
  (** [Number::toString] *)
  number_to_string : number -> jsstring;
  (** the [TypeError] of reading property [key] of [null] *)
  null_property_error : jsstring -> exception;
  (** and of [undefined] *)
  undefined_property_error : jsstring -> exception;
  (** the [TypeError] of [OrdinaryToPrimitive] finding no primitive *)
  to_primitive_error : exception;
  (** the [NotFoundError] of [removeChild] on a node that is not a child *)
  not_found_error : exception
}.

Section Script.
Context {engine : Engine}.

(** ** The values the scripts handle *)

(** What [JSON.parse] returns, and [undefined], the value of a property
    that is not there.  The fields of [JObj] are the own properties of the
    parsed object, each key once ([JSON.parse] keeps the last of duplicate
    keys). *)
Inductive value : Type :=
| Undefined
| JNull
| JBool (b : bool)
| JNum (n : number)
| JStr (s : jsstring)
| JArr (items : list value)
| JObj (fields : list (jsstring * value)).

Fixpoint jsstring_eqb (a b : jsstring) : bool :=
  match a, b with
  | [], [] => true
  | x :: a', y :: b' => (x =? y)%N && jsstring_eqb a' b'
  | _, _ => false
  end.

Fixpoint own_property (key : jsstring) (fields : list (jsstring * value))
  : value :=
  match fields with
  | [] => Undefined
  | (k, v) :: rest =>
      if jsstring_eqb k key then v else own_property key rest
  end.

Fixpoint has_own_property (key : jsstring)
    (fields : list (jsstring * value)) : bool :=
  match fields with
  | [] => false
  | (k, _) :: rest => jsstring_eqb k key || has_own_property key rest
  end.

(** [ToBoolean] *)
Definition truthy (v : value) : bool :=
  match v with
  | Undefined => false
  | JNull => false
  | JBool b => b
  | JNum n => number_truthy n
  | JStr s => negb (is_empty s)
  | JArr _ => true
  | JObj _ => true
  end.

(** [v.key] for the keys the scripts read, [reply] and [error], which no
    built-in prototype defines: an own property of an object, [undefined] on
    an array or a primitive, a [TypeError] on [null] and [undefined]. *)
Definition get (v : value) (key : jsstring) : result value :=
  match v with
  | Undefined => Throw (undefined_property_error key)
  | JNull => Throw (null_property_error key)
  | JObj fields => Ok (own_property key fields)
  | JBool _ | JNum _ | JStr _ | JArr _ => Ok Undefined
  end.

(** [ToString], the conversion a template literal and the [textContent]
    setter apply.  An object is [[object Object]] through
    [Object.prototype.toString], unless an own property [toString] hides
    that method: a parsed value is never callable, and
    [Object.prototype.valueOf] returns the object itself, so
    [OrdinaryToPrimitive] throws.  An array is the [join] of its items with
    commas, [null] and [undefined] items being empty. *)
Fixpoint ToString (v : value) : result jsstring :=
  match v with
  | Undefined => Ok (js "undefined")
  | JNull => Ok (js "null")
  | JBool true => Ok (js "true")
  | JBool false => Ok (js "false")
  | JNum n => Ok (number_to_string n)
  | JStr s => Ok s
  | JArr items =>
      (fix join (first : bool) (l : list value) : result jsstring :=
         match l with
         | [] => Ok []
         | x :: rest =>
             match (match x with
                    | Undefined | JNull => Ok []
                    | _ => ToString x
                    end) with
             | Throw e => Throw e
             | Ok sx =>
                 match join false rest with
                 | Throw e => Throw e
                 | Ok sr =>
                     Ok ((if first then [] else js ",") ++ sx ++ sr)
                 end
             end
         end) true items
  | JObj fields =>
      if has_own_property (js "toString") fields
      then Throw to_primitive_error
      else Ok (js "[object Object]")
  end.

(** ** The network *)

Record request := {
  url : jsstring;
  method : jsstring;
  headers : list (jsstring * jsstring);
  (** the value handed to [JSON.stringify] *)
  body : value
}.

(** A [Response] as far as the scripts read it.  Its body arrives later:
    how [response.json()] settles is supplied when it does. *)
Record response := {
  status : N;
  statusText : jsstring
}.

(** [response.ok] *)
Definition ok (r : response) : bool :=
  ((200 <=? status r) && (status r <=? 299))%N.

(** ** The page *)

(** The [sender] argument of [addMessageToChatbox]. *)
Inductive sender : Type := user | bot | error.

(** What a child of the chat box holds: the [<p>] with the message, or the
    animated dots of the thinking indicator. *)
Inductive content : Type :=
| Paragraph (text : jsstring)
| Dots (n : nat).

(** A child of [#chatbox].  [handle] is the identity of the node, which is
    what [contains] and [removeChild] compare; [sender_class] is the
    [user-message], [bot-message] or [error-message] class it carries (the
    styling classes next to it are left out). *)
Record element := {
  handle : nat;
  sender_class : sender;
  inner : content
}.

Inductive logged : Type :=
| LogValue (v : value)
| LogError (e : exception).

(** What the scripts do to the page and to the outside, in program order. *)
Inductive event : Type :=
| Appended (e : element)                  (* chatbox.appendChild(e) *)
| Removed (h : nat)                       (* chatbox.removeChild(node h) *)
| InputAssigned (v : jsstring)            (* userInput.value = v *)
| Fetched (r : request)                   (* fetch(url, init) *)
| ConsoleError (label : jsstring) (payload : logged)
| FocusScheduled (ms : nat).              (* setTimeout(focus, ms) *)

(** The page: the part of the document the scripts read and write, and
    the record of what they have done.  Layout is not part of it: the
    scroll position that [addMessageToChatbox] sets after each append is
    left out. *)
Record page := {
  chatbox : list element;       (* the children of #chatbox, in order *)
  fresh : nat;                  (* the next node [createElement] makes *)
  userInput : jsstring;         (* userInput.value *)
  chatPopup : list jsstring;    (* chatPopup.classList *)
  history : list event          (* what the scripts have done, oldest first *)
}.

(** ** Statements: state and exceptions *)

Definition M (A : Type) : Type := page -> result A * page.

Definition ret {A} (a : A) : M A := fun p => (Ok a, p).

Definition bind {A B} (m : M A) (k : A -> M B) : M B :=
  fun p =>
    match m p with
    | (Ok a, p') => k a p'
    | (Throw e, p') => (Throw e, p')
    end.

Notation "x <- c1 ;; c2" := (bind c1 (fun x => c2)) : js_scope.
Notation "c1 ;; c2" := (bind c1 (fun _ => c2)) : js_scope.

Definition throw {A} (e : exception) : M A := fun p => (Throw e, p).

Definition try_catch {A} (body : M A) (handler : exception -> M A) : M A :=
  fun p =>
    match body p with
    | (Ok a, p') => (Ok a, p')
    | (Throw e, p') => handler e p'
    end.

(** An expression that may throw. *)
Definition eval {A} (r : result A) : M A := fun p => (r, p).

(** [await promise], resumed with how the promise settled. *)
Definition await {A} (s : settled A) : M A :=
  match s with
  | Fulfilled a => ret a
  | Rejected e => throw e
  end.

Definition record (ev : event) : M unit :=
  fun p =>
    (Ok tt, {| chatbox := chatbox p; fresh := fresh p;
               userInput := userInput p; chatPopup := chatPopup p;
               history := history p ++ [ev] |}).

(** *** The DOM and the outside, as the scripts use them *)

Definition with_chatbox (c : list element) (p : page) : page :=
  {| chatbox := c; fresh := fresh p; userInput := userInput p;
     chatPopup := chatPopup p; history := history p |}.

Definition with_chatPopup (c : list jsstring) (p : page) : page :=
  {| chatbox := chatbox p; fresh := fresh p; userInput := userInput p;
     chatPopup := c; history := history p |}.

(** [document.createElement('div')] for a future child of the chat box;
    the nodes nested in it are part of its [inner]. *)
Definition createElement : M nat :=
  fun p =>
    (Ok (fresh p),
     {| chatbox := chatbox p; fresh := S (fresh p);
        userInput := userInput p; chatPopup := chatPopup p;
        history := history p |}).

Definition is_node (h : nat) (e : element) : bool := handle e =? h.

(** [chatbox.contains(node)] *)
Definition contains (h : nat) : M bool :=
  fun p => (Ok (existsb (is_node h) (chatbox p)), p).

(** [chatbox.removeChild(node)], a [NotFoundError] when the node is not a
    child. *)
Definition removeChild (h : nat) : M unit :=
  c <- contains h;;
  if c
  then (fun p =>
          (Ok tt,
           with_chatbox (filter (fun e => negb (is_node h e)) (chatbox p)) p));;
       record (Removed h)
  else throw not_found_error.

(** [chatbox.appendChild(e)] of a node that is not in the document yet. *)
Definition appendChild (e : element) : M unit :=
  (fun p => (Ok tt, with_chatbox (chatbox p ++ [e]) p));;
  record (Appended e).

(** The conversion of the [textContent] setter, whose type is a nullable
    string: [null] and [undefined] empty the node. *)
Definition textContent (v : value) : M jsstring :=
  match v with
  | Undefined | JNull => ret []
  | _ => eval (ToString v)
  end.

(** [userInput.value] *)
Definition userInput_value : M jsstring := fun p => (Ok (userInput p), p).

(** [userInput.value = v] *)
Definition set_userInput_value (v : jsstring) : M unit :=
  (fun p =>
     (Ok tt,
      {| chatbox := chatbox p; fresh := fresh p; userInput := v;
         chatPopup := chatPopup p; history := history p |}));;
  record (InputAssigned v).

(** [fetch(url, { method, headers, body: JSON.stringify(v) })]: the
    request leaves; the promise it returns is awaited by the caller. *)
Definition fetch (u : jsstring) (m : jsstring)
    (h : list (jsstring * jsstring)) (v : value) : M unit :=
  record (Fetched {| url := u; method := m; headers := h; body := v |}).

(** [console.error(label, payload)] *)
Definition console_error (label : jsstring) (payload : logged) : M unit :=
  record (ConsoleError label payload).

(** [chatPopup.classList]: [contains], [add] and [remove] of one token. *)
Definition classList_contains (token : jsstring) : M bool :=
  fun p => (Ok (existsb (jsstring_eqb token) (chatPopup p)), p).

Definition classList_add (token : jsstring) : M unit :=
  fun p =>
    (Ok tt,
     if existsb (jsstring_eqb token) (chatPopup p) then p
     else with_chatPopup (chatPopup p ++ [token]) p).

Definition classList_remove (token : jsstring) : M unit :=
  fun p =>
    (Ok tt,
     with_chatPopup
       (filter (fun t => negb (jsstring_eqb token t)) (chatPopup p)) p).

(** Where an exchange is suspended once its response has arrived: at the
    [await] of the branch for a status that is not OK, or at the [await] of
    the success path.  The closure holds the thinking indicator and the
    response. *)
Inductive suspension : Type :=
| AwaitErrorData (thinking : nat) (r : response)
| AwaitData (thinking : nat) (r : response).

End Script.

Notation "x <- c1 ;; c2" := (bind c1 (fun x => c2)) : js_scope.
Notation "c1 ;; c2" := (bind c1 (fun _ => c2)) : js_scope.

(** ** [app/static/script.js] *)

Module AppStatic.
Section WithEngine.
Context {engine : Engine}.

Definition API_URL : jsstring := js "/chat".

(** [classList.add('message', sender + '-message')], a [<p>] whose
    [textContent] is the message, [chatbox.appendChild]; returns the
    element. *)
Definition addMessageToChatbox (message : value) (who : sender) : M nat :=
  messageElement <- createElement;;
  text <- textContent message;;
  appendChild {| handle := messageElement; sender_class := who;
                 inner := Paragraph text |};;
  ret messageElement.

(** [sendMessage] up to [await fetch(...)]: [None] when it returned at the
    empty message, else the thinking indicator the rest of it holds. *)
Definition sendMessage : M (option nat) :=
  raw <- userInput_value;;
  let userMessage := trim raw in
  if is_empty userMessage then ret None
  else
    addMessageToChatbox (JStr userMessage) user;;
    set_userInput_value (js "");;
    thinkingMessage <- addMessageToChatbox (JStr (js "...")) bot;;
    fetch API_URL (js "POST") [(js "Content-Type", js "application/json")]
          (JObj [(js "query", JStr userMessage)]);;
    ret (Some thinkingMessage).

(** The [catch] block. *)
Definition catch (thinkingMessage : nat) (err : exception) : M unit :=
  present <- contains thinkingMessage;;
  (if present then removeChild thinkingMessage else ret tt);;
  console_error (js "Fetch Error:") (LogError err);;
  addMessageToChatbox
    (JStr (js "Network error or failed to connect to the server. ("
           ++ message err ++ js ")")) error;;
  ret tt.

(** From the settlement of [fetch] to the next [await]. *)
Definition fetch_settled (thinkingMessage : nat) (o : settled response)
  : M (option suspension) :=
  try_catch
    (response <- await o;;
     present <- contains thinkingMessage;;
     (if present then removeChild thinkingMessage else ret tt);;
     if negb (ok response)
     then ret (Some (AwaitErrorData thinkingMessage response))
     else ret (Some (AwaitData thinkingMessage response)))
    (fun err => catch thinkingMessage err;; ret None).

(** From the settlement of [response.json()] to the end. *)
Definition json_settled (s : suspension) (o : settled value) : M unit :=
  match s with
  | AwaitErrorData thinkingMessage response =>
      try_catch
        (let errorData :=
           match o with
           | Fulfilled v => v
           | Rejected _ =>
               JObj [(js "error",
                      JStr (js "HTTP error! Status: "
                            ++ decimal (status response)))]
           end in
         console_error (js "API Error Response:") (LogValue errorData);;
         field <- eval (get errorData (js "error"));;
         text <- eval (ToString (if truthy field then field
                                 else JStr (statusText response)));;
         addMessageToChatbox (JStr (js "Error: " ++ text)) error;;
         ret tt)
        (catch thinkingMessage)
  | AwaitData thinkingMessage _ =>
      try_catch
        (data <- await o;;
         reply <- (if truthy data then eval (get data (js "reply"))
                   else ret data);;
         (if truthy reply
          then addMessageToChatbox reply bot
          else addMessageToChatbox
                 (JStr (js "Received an empty or invalid response from the server."))
                 error);;
         ret tt)
        (catch thinkingMessage)
  end.

(** One exchange with no other event between its segments. *)
Definition exchange (o : settled response) (j : settled value) : M unit :=
  started <- sendMessage;;
  match started with
  | None => ret tt
  | Some thinking =>
      next <- fetch_settled thinking o;;
      match next with
      | None => ret tt
      | Some s => json_settled s j
      end
  end.

End WithEngine.
End AppStatic.

(** ** The popup widget script *)

Module Popup.
Section WithEngine.
Context {engine : Engine}.

Definition API_URL : jsstring := js "/chat".

Definition hidden : jsstring := js "hidden".

(** Shows the popup and schedules the focus of the input, or hides it. *)
Definition toggleChat : M unit :=
  is_hidden <- classList_contains hidden;;
  if is_hidden
  then classList_remove hidden;; record (FocusScheduled 100)
  else classList_add hidden.

(** A bot-styled element holding three dots, appended to the chat box. *)
Definition addThinkingIndicator : M nat :=
  thinkingElement <- createElement;;
  appendChild {| handle := thinkingElement; sender_class := bot;
                 inner := Dots 3 |};;
  ret thinkingElement.

(** The class list is chosen by [sender]: the user's, the bot's, and the
    error's for anything else. *)
Definition addMessageToChatbox (message : value) (who : sender) : M nat :=
  messageElement <- createElement;;
  let class := match who with
               | user => user
               | bot => bot
               | _ => error
               end in
  text <- textContent message;;
  appendChild {| handle := messageElement; sender_class := class;
                 inner := Paragraph text |};;
  ret messageElement.

Definition sendMessage : M (option nat) :=
  raw <- userInput_value;;
  let userMessage := trim raw in
  if is_empty userMessage then ret None
  else
    addMessageToChatbox (JStr userMessage) user;;
    set_userInput_value (js "");;
    thinkingElement <- addThinkingIndicator;;
    fetch API_URL (js "POST") [(js "Content-Type", js "application/json")]
          (JObj [(js "query", JStr userMessage)]);;
    ret (Some thinkingElement).

Definition catch (thinkingElement : nat) (err : exception) : M unit :=
  present <- contains thinkingElement;;
  (if present then removeChild thinkingElement else ret tt);;
  console_error (js "Fetch Error:") (LogError err);;
  addMessageToChatbox
    (JStr (js "Connection error. Please try again later.")) error;;
  ret tt.

Definition fetch_settled (thinkingElement : nat) (o : settled response)
  : M (option suspension) :=
  try_catch
    (response <- await o;;
     present <- contains thinkingElement;;
     (if present then removeChild thinkingElement else ret tt);;
     if negb (ok response)
     then ret (Some (AwaitErrorData thinkingElement response))
     else ret (Some (AwaitData thinkingElement response)))
    (fun err => catch thinkingElement err;; ret None).

Definition json_settled (s : suspension) (o : settled value) : M unit :=
  match s with
  | AwaitErrorData thinkingElement response =>
      try_catch
        (let errorData :=
           match o with
           | Fulfilled v => v
           | Rejected _ =>
               JObj [(js "error",
                      JStr (js "HTTP error! Status: "
                            ++ decimal (status response)))]
           end in
         console_error (js "API Error:") (LogValue errorData);;
         field <- eval (get errorData (js "error"));;
         text <- eval (ToString (if truthy field then field
                                 else JStr (statusText response)));;
         addMessageToChatbox (JStr (js "Error: " ++ text)) error;;
         ret tt)
        (catch thinkingElement)
  | AwaitData thinkingElement _ =>
      try_catch
        (data <- await o;;
         reply <- (if truthy data then eval (get data (js "reply"))
                   else ret data);;
         (if truthy reply
          then addMessageToChatbox reply bot
          else addMessageToChatbox
                 (JStr (js "Received an empty or invalid response."))
                 error);;
         ret tt)
        (catch thinkingElement)
  end.

(** One exchange with no other event between its segments. *)
Definition exchange (o : settled response) (j : settled value) : M unit :=
  started <- sendMessage;;
  match started with
  | None => ret tt
  | Some thinking =>
      next <- fetch_settled thinking o;;
      match next with
      | None => ret tt
      | Some s => json_settled s j
      end
  end.

End WithEngine.
End Popup.

(** ** Observing a run *)

Unset Implicit Arguments.

Section Observations.
Context {engine : Engine}.

(** The page a statement leaves. *)
Definition exec {A} (m : M A) (p : page) : page := snd (m p).

(** What has been done between page [p] and the later page [p']. *)
Definition since (p p' : page) : list event :=
  skipn (List.length (history p)) (history p').

(** A message element. *)
Definition paragraph (h : nat) (who : sender) (text : jsstring) : element :=
  {| handle := h; sender_class := who; inner := Paragraph text |}.

(** The thinking indicator of each script. *)
Definition AppStatic_thinking (h : nat) : element :=
  paragraph h bot (js "...").

Definition Popup_thinking (h : nat) : element :=
  {| handle := h; sender_class := bot; inner := Dots 3 |}.

(** The request both scripts send for a message. *)
Definition chat_request (userMessage : jsstring) : request :=
  {| url := js "/chat"; method := js "POST";
     headers := [(js "Content-Type", js "application/json")];
     body := JObj [(js "query", JStr userMessage)] |}.

(** What the synchronous part of [sendMessage] does for a message that is
    not empty, and the page it leaves; [thinking] makes the indicator of the
    script. *)
Definition dispatch (thinking : nat -> element) (p : page) : list event :=
  [Appended (paragraph (fresh p) user (trim (userInput p)));
   InputAssigned [];
   Appended (thinking (S (fresh p)));
   Fetched (chat_request (trim (userInput p)))].

Definition sent (thinking : nat -> element) (p : page) : page :=
  {| chatbox := chatbox p ++ [paragraph (fresh p) user (trim (userInput p));
                              thinking (S (fresh p))];
     fresh := S (S (fresh p));
     userInput := [];
     chatPopup := chatPopup p;
     history := history p ++ dispatch thinking p |}.

(** The nodes of the chat box are older than the next node, so that the
    node [createElement] makes is none of them.  A page is so when it loads,
    and every step of the event loop keeps it so. *)
Definition older_nodes (p : page) : bool :=
  forallb (fun e => handle e <? fresh p) (chatbox p).

(** The input holds white space only. *)
Definition blank (s : jsstring) : bool := forallb is_white_space s.

(** [userInput.value = ...] *)
Definition is_input_assignment (ev : event) : bool :=
  match ev with InputAssigned _ => true | _ => false end.

(** The page after [if (chatbox.contains(node)) chatbox.removeChild(node)]. *)
Definition removing (h : nat) (p : page) : page :=
  if existsb (is_node h) (chatbox p)
  then {| chatbox := filter (fun e => negb (is_node h e)) (chatbox p);
          fresh := fresh p; userInput := userInput p;
          chatPopup := chatPopup p;
          history := history p ++ [Removed h] |}
  else p.

(** The page after [console.error(label, payload)]. *)
Definition logging (label : jsstring) (payload : logged) (p : page) : page :=
  {| chatbox := chatbox p; fresh := fresh p; userInput := userInput p;
     chatPopup := chatPopup p;
     history := history p ++ [ConsoleError label payload] |}.

(** The page after [addMessageToChatbox] of a text. *)
Definition appending (who : sender) (text : jsstring) (p : page) : page :=
  {| chatbox := chatbox p ++ [paragraph (fresh p) who text];
     fresh := S (fresh p); userInput := userInput p;
     chatPopup := chatPopup p;
     history := history p ++ [Appended (paragraph (fresh p) who text)] |}.

(** The page after an [addMessageToChatbox] that threw at [textContent]:
    the element it created is dropped. *)
Definition dropping_node (p : page) : page :=
  {| chatbox := chatbox p; fresh := S (fresh p); userInput := userInput p;
     chatPopup := chatPopup p; history := history p |}.

(** The texts of the two scripts. *)
Definition AppStatic_invalid : jsstring :=
  js "Received an empty or invalid response from the server.".

Definition Popup_invalid : jsstring :=
  js "Received an empty or invalid response.".

Definition AppStatic_network (err : exception) : jsstring :=
  js "Network error or failed to connect to the server. ("
  ++ message err ++ js ")".

Definition Popup_network : jsstring :=
  js "Connection error. Please try again later.".

(** What the scripts make of a response that is not OK and whose body is
    not JSON. *)
Definition synthesized (r : response) : jsstring :=
  js "HTTP error! Status: " ++ decimal (status r).

Definition synthesized_body (r : response) : value :=
  JObj [(js "error", JStr (synthesized r))].

(** The page after the [catch] block of each script. *)
Definition AppStatic_caught (h : nat) (err : exception) (p : page) : page :=
  appending error (AppStatic_network err)
    (logging (js "Fetch Error:") (LogError err) (removing h p)).

Definition Popup_caught (h : nat) (err : exception) (p : page) : page :=
  appending error Popup_network
    (logging (js "Fetch Error:") (LogError err) (removing h p)).

(** The page as the template of the popup widget delivers it: the greeting
    in the chat box, an empty input, the popup hidden. *)
Definition template_page : page :=
  {| chatbox :=
       [paragraph 0 bot
          (js "Hello! How can I help you with entitlements today?")];
     fresh := 1;
     userInput := [];
     chatPopup :=
       map js ["fixed"; "bottom-24"; "right-5"; "w-80"; "h-[30rem]";
               "bg-white"; "rounded-lg"; "shadow-xl"; "flex"; "flex-col";
               "z-40"; "hidden"; "animate-fade-in"]%string;
     history := [] |}.

(** The page once the user has edited the input field to hold [s]. *)
Definition typing (s : jsstring) (p : page) : page :=
  {| chatbox := chatbox p; fresh := fresh p; userInput := s;
     chatPopup := chatPopup p; history := history p |}.

(** What an exchange that ran from page [p] to page [p'] did: the chat box
    gained the user's entry and the [terminal] entry and nothing else, and
    the script, in this order, appended the user's entry, emptied the
    input, appended the indicator, sent the request, removed the indicator,
    wrote [diagnostics] and appended the terminal entry. *)
Definition exchanged (thinking : nat -> element) (p p' : page)
    (diagnostics : list event) (terminal : element) : Prop :=
  chatbox p' = chatbox p ++ [paragraph (fresh p) user (trim (userInput p));
                             terminal]
  /\ since p p' = dispatch thinking p ++ [Removed (S (fresh p))]
                  ++ diagnostics ++ [Appended terminal].

(** [chatbox.lastChild] *)
Definition lastChild (p : page) : option element :=
  match rev (chatbox p) with
  | [] => None
  | e :: _ => Some e
  end.

(** The panel is closed when the popup carries the class [hidden]. *)
Inductive PanelState : Type := closed | open.

Definition panelState (p : page) : PanelState :=
  if existsb (jsstring_eqb Popup.hidden) (chatPopup p) then closed else open.

Definition flip (s : PanelState) : PanelState :=
  match s with closed => open | open => closed end.

End Observations.

(** ** The event loop

    The exchanges of a page overlap: between the segments of one
    [sendMessage] the user types, submits again and toggles the panel, and
    the responses of other exchanges arrive. *)

Section EventLoop.
Context {engine : Engine}.

(** What a script installs: the three segments of [sendMessage] and its
    other handlers. *)
Record script := {
  on_submit : M (option nat);
  on_response : nat -> settled response -> M (option suspension);
  on_body : suspension -> settled value -> M unit;
  handlers : list (M unit)
}.

Definition AppStatic_script : script :=
  {| on_submit := AppStatic.sendMessage;
     on_response := AppStatic.fetch_settled;
     on_body := AppStatic.json_settled;
     handlers := [] |}.

Definition Popup_script : script :=
  {| on_submit := Popup.sendMessage;
     on_response := Popup.fetch_settled;
     on_body := Popup.json_settled;
     handlers := [Popup.toggleChat] |}.

Definition thinking_of (s : suspension) : nat :=
  match s with
  | AwaitErrorData thinking _ => thinking
  | AwaitData thinking _ => thinking
  end.

(** Where an exchange stands: its request is out; its response has come
    and the body is awaited; its terminal entry is in the chat box. *)
Inductive stage : Type :=
| InFlight (thinking : nat)
| Responded (s : suspension)
| Rendered (thinking : nat) (terminal : element).

(** The page and the exchanges started on it, oldest first. *)
Definition world : Type := page * list stage.

Inductive step (S : script) : world -> world -> Prop :=
| step_typing p xs v :
    step S (p, xs) (typing v p, xs)
| step_handler p xs m p' :
    In m (handlers S) ->
    m p = (Ok tt, p') ->
    step S (p, xs) (p', xs)
| step_blank p xs p' :
    on_submit S p = (Ok None, p') ->
    step S (p, xs) (p', xs)
| step_submit p xs h p' :
    on_submit S p = (Ok (Some h), p') ->
    step S (p, xs) (p', xs ++ [InFlight h])
| step_response p xs1 h xs2 o s p' :
    on_response S h o p = (Ok (Some s), p') ->
    step S (p, xs1 ++ InFlight h :: xs2) (p', xs1 ++ Responded s :: xs2)
| step_failure p xs1 h xs2 o p' e :
    on_response S h o p = (Ok None, p') ->
    lastChild p' = Some e ->
    step S (p, xs1 ++ InFlight h :: xs2) (p', xs1 ++ Rendered h e :: xs2)
| step_body p xs1 s xs2 j p' e :
    on_body S s j p = (Ok tt, p') ->
    lastChild p' = Some e ->
    step S (p, xs1 ++ Responded s :: xs2)
           (p', xs1 ++ Rendered (thinking_of s) e :: xs2).

(** The worlds a page comes to from its load, when its nodes are older
    than the next node and nothing has been done yet. *)
Inductive reachable (S : script) : world -> Prop :=
| reachable_load p :
    older_nodes p = true ->
    history p = [] ->
    reachable S (p, [])
| reachable_step w w' :
    reachable S w ->
    step S w w' ->
    reachable S w'.

(** [chatbox.contains(node)], observed. *)
Definition present (h : nat) (p : page) : bool :=
  existsb (is_node h) (chatbox p).

Definition is_removal (h : nat) (ev : event) : bool :=
  match ev with
  | Removed k => k =? h
  | _ => false
  end.

(** How many times the node has been removed so far. *)
Definition removals (h : nat) (p : page) : nat :=
  List.length (filter (is_removal h) (history p)).

(** [a] was done before [b]. *)
Definition precedes (a b : event) (l : list event) : Prop :=
  exists l1 l2 l3, l = l1 ++ a :: l2 ++ b :: l3.

(** The node an exchange holds is in the chat box, never removed, while
    the request is out; from the arrival of the response on it is out of the
    chat box, removed once; and the terminal entry, once there, was appended
    after that removal.  That the node is the indicator element is what
    [stage_shows] adds. *)
Definition stage_ok (p : page) (x : stage) : Prop :=
  match x with
  | InFlight h =>
      present h p = true /\ removals h p = 0
  | Responded s =>
      present (thinking_of s) p = false /\ removals (thinking_of s) p = 1
  | Rendered h e =>
      present h p = false /\ removals h p = 1
      /\ In e (chatbox p)
      /\ precedes (Removed h) (Appended e) (history p)
  end.

(** Whatever way a pending exchange settles, its segment runs to its end,
    and the segment that ends the exchange leaves a last child. *)
Definition settles (S : script) (p : page) (x : stage) : Prop :=
  match x with
  | InFlight h =>
      forall o, exists k p',
        on_response S h o p = (Ok k, p')
        /\ (k = None -> exists e, lastChild p' = Some e)
  | Responded s =>
      forall j, exists p' e,
        on_body S s j p = (Ok tt, p') /\ lastChild p' = Some e
  | Rendered _ _ => True
  end.

(** The nodes an exchange has made that are still of interest. *)
Definition owned (x : stage) : list nat :=
  match x with
  | InFlight h => [h]
  | Responded s => [thinking_of s]
  | Rendered h e => [h; handle e]
  end.

Definition is_mutation (ev : event) : bool :=
  match ev with
  | Appended _ | Removed _ => true
  | _ => false
  end.

(** From [p] to [q] the chat box was left alone. *)
Definition quiet (p q : page) : Prop :=
  chatbox q = chatbox p
  /\ fresh p <= fresh q
  /\ exists evs, history q = history p ++ evs
                 /\ existsb is_mutation evs = false.

(** What a step of other exchanges, or of none, keeps of an exchange. *)
Definition frames (p q : page) (x : stage) : Prop :=
  Forall (fun h => present h q = present h p /\ removals h q = removals h p)
         (owned x)
  /\ (forall e, In (handle e) (owned x) -> In e (chatbox p) ->
                In e (chatbox q))
  /\ exists evs, history q = history p ++ evs.

(** What the proof of the invariant carries along: the nodes of the
    exchanges are distinct and older than the next node, as are the nodes
    removed so far. *)
Definition tidy (w : world) : Prop :=
  Forall (fun k => k < fresh (fst w)) (flat_map owned (snd w))
  /\ NoDup (flat_map owned (snd w))
  /\ (forall k, In (Removed k) (history (fst w)) -> k < fresh (fst w))
  /\ Forall (stage_ok (fst w)) (snd w).

End EventLoop.

(** ** An engine and pages to run the scripts on *)

Definition type_error (m : jsstring) : exception :=
  {| name := js "TypeError"; message := m;
     stack := js "TypeError: " ++ m ++ [10%N]
              ++ js "    at sendMessage (script.js)" |}.

(** An engine with the messages of Chromium, whose numbers are the
    integers, printed in decimal.  That is how [Number::toString] prints
    the integers a number holds exactly and prints in full, those of
    magnitude up to 2^53; the runs below use no other. *)
Definition chromium : Engine :=
  {| number := Z;
     number_truthy := fun z => negb (z =? 0)%Z;
     number_to_string := fun z => js (NilZero.string_of_int (Z.to_int z));
     null_property_error := fun key =>
       type_error (js "Cannot read properties of null (reading '"
                   ++ key ++ js "')");
     undefined_property_error := fun key =>
       type_error (js "Cannot read properties of undefined (reading '"
                   ++ key ++ js "')");
     to_primitive_error :=
       type_error (js "Cannot convert object to primitive value");
     not_found_error :=
       {| name := js "NotFoundError";
          message := js "The node to be removed is not a child of this node.";
          stack := js "NotFoundError" |} |}.

Definition integer (z : Z) : @value chromium := @JNum chromium z.

(** The page of the template once the user has typed [s]. *)
Definition typed (s : jsstring) : @page chromium :=
  typing s (@template_page chromium).

Definition response_200 : response :=
  {| status := 200; statusText := js "OK" |}.

Definition response_500 : response :=
  {| status := 500; statusText := js "Internal Server Error" |}.

Definition failed_to_fetch : exception := type_error (js "Failed to fetch").

Definition not_json : exception :=
  {| name := js "SyntaxError";
     message := js "Unexpected token '<'";
     stack := js "SyntaxError: Unexpected token '<'" |}.

Definition hi_there : @value chromium :=
  JObj [(js "reply", JStr (js "Hi there"))].

(** Two exchanges that overlap: the second message is sent while the first
    request is out, the second response comes first, then the first request
    fails, then the body of the second response arrives. *)
Definition first_sent : @page chromium :=
  exec Popup.sendMessage (typed (js "first")).

Definition both_sent : @page chromium :=
  exec Popup.sendMessage (typing (js "second") first_sent).

Definition second_responded : @page chromium :=
  exec (Popup.fetch_settled 4 (Fulfilled response_200)) both_sent.

Definition first_failed : @page chromium :=
  exec (Popup.fetch_settled 2 (Rejected failed_to_fetch)) second_responded.

Definition second_rendered : @page chromium :=
  exec (Popup.json_settled (AwaitData 4 response_200) (Fulfilled hi_there))
       first_failed.

Definition overlapping : @world chromium :=
  (second_rendered,
   [Rendered 2 (paragraph 5 error Popup_network);
    Rendered 4 (paragraph 6 bot (js "Hi there"))]).

(** ** The listeners and what else is observed of a run *)

Section Listeners.
Context {engine : Engine}.

(** The [keypress] listener of the input field, given [event.key]: [Enter]
    calls [sendMessage], any other key does nothing.  As for [sendMessage],
    the result is the indicator the rest of the function holds. *)
Definition AppStatic_keypress (key : jsstring) : M (option nat) :=
  if jsstring_eqb key (js "Enter") then AppStatic.sendMessage else ret None.

Definition Popup_keypress (key : jsstring) : M (option nat) :=
  if jsstring_eqb key (js "Enter") then Popup.sendMessage else ret None.

Definition is_console_error (ev : event) : bool :=
  match ev with ConsoleError _ _ => true | _ => false end.

Definition is_fetch (ev : event) : bool :=
  match ev with Fetched _ => true | _ => false end.

(** The element holds the dots of a thinking indicator. *)
Definition is_dots (e : element) : bool :=
  match inner e with Dots _ => true | Paragraph _ => false end.

Definition in_flight (h : nat) (x : stage) : bool :=
  match x with InFlight k => k =? h | _ => false end.

Definition is_rendered (x : stage) : bool :=
  match x with Rendered _ _ => true | _ => false end.

(** Every element of dots in the chat box is the indicator of an exchange
    whose request is out. *)
Definition dots_owned (w : world) : bool :=
  forallb (fun e => negb (is_dots e)
                    || existsb (in_flight (handle e)) (snd w))
          (chatbox (fst w)).

(** The tokens of a class list are distinct. *)
Fixpoint distinct (l : list jsstring) : bool :=
  match l with
  | [] => true
  | t :: rest => negb (existsb (jsstring_eqb t) rest) && distinct rest
  end.

(** The classes of the popup other than [hidden]. *)
Definition other_classes (p : page) : list jsstring :=
  filter (fun t => negb (jsstring_eqb Popup.hidden t)) (chatPopup p).

(** Some steps of the event loop, one after the other. *)
Inductive run (S : script) : world -> world -> Prop :=
| run_done w : run S w w
| run_step w w' w'' : step S w w' -> run S w' w'' -> run S w w''.

(** The event appends the node [h]. *)
Definition is_append_of (h : nat) (ev : event) : bool :=
  match ev with
  | Appended e => handle e =? h
  | _ => false
  end.

(** The node an exchange holds as its indicator. *)
Definition thinking_at (x : stage) : nat :=
  match x with
  | InFlight h => h
  | Responded s => thinking_of s
  | Rendered h _ => h
  end.

(** Each script with the element its indicator is. *)
Definition installed : list (script * (nat -> element)) :=
  [(AppStatic_script, AppStatic_thinking); (Popup_script, Popup_thinking)].

(** Where an exchange stands, with the node it holds named as what it is:
    the indicator element [thinking h].  That node was appended once, as the
    indicator.  While the request is out it is the one node [h] of the chat
    box and has not been removed.  From the arrival of the response on, the
    indicator is out of the chat box, removed once, after it was appended;
    and the terminal entry, once there, was appended after that removal. *)
Definition stage_shows (thinking : nat -> element) (p : page) (x : stage)
  : Prop :=
  match x with
  | InFlight h =>
      filter (is_node h) (chatbox p) = [thinking h]
      /\ filter (is_append_of h) (history p) = [Appended (thinking h)]
      /\ present h p = true /\ removals h p = 0
  | Responded s =>
      ~ In (thinking (thinking_of s)) (chatbox p)
      /\ filter (is_append_of (thinking_of s)) (history p)
         = [Appended (thinking (thinking_of s))]
      /\ precedes (Appended (thinking (thinking_of s)))
                  (Removed (thinking_of s)) (history p)
      /\ present (thinking_of s) p = false
      /\ removals (thinking_of s) p = 1
  | Rendered h e =>
      ~ In (thinking h) (chatbox p)
      /\ filter (is_append_of h) (history p) = [Appended (thinking h)]
      /\ precedes (Appended (thinking h)) (Removed h) (history p)
      /\ present h p = false /\ removals h p = 1
      /\ In e (chatbox p)
      /\ precedes (Removed h) (Appended e) (history p)
  end.

(** The part of [stage_shows] that names the indicator. *)
Definition indicator_ok (thinking : nat -> element) (p : page) (x : stage)
  : Prop :=
  filter (is_append_of (thinking_at x)) (history p)
  = [Appended (thinking (thinking_at x))]
  /\ match x with
     | InFlight h => filter (is_node h) (chatbox p) = [thinking h]
     | _ => precedes (Appended (thinking (thinking_at x)))
                     (Removed (thinking_at x)) (history p)
     end.

(** The nodes appended so far are older than the next node. *)
Definition appended_older (p : page) : Prop :=
  forall e, In (Appended e) (history p) -> handle e < fresh p.

(** From [p] to [q] the node [k] was left alone. *)
Definition kept (k : nat) (p q : page) : Prop :=
  filter (is_node k) (chatbox q) = filter (is_node k) (chatbox p)
  /\ exists evs, history q = history p ++ evs
                 /\ filter (is_append_of k) evs = [].

(** The pages a segment goes through after [p] and before its last
    [addMessageToChatbox]: the indicator [h] removed under its guard, output
    to the console, a node made and dropped. *)
Inductive settling (h : nat) (p : page) : page -> Prop :=
| settling_start : settling h p p
| settling_removing q : settling h p q -> settling h p (removing h q)
| settling_logging q label x :
    settling h p q -> settling h p (logging label x q)
| settling_dropping q : settling h p q -> settling h p (dropping_node q).

End Listeners.

(** ** Facts about strings and lists *)

Example trim_spaces : trim (js "  hi there ") = js "hi there".
Proof. reflexivity. Qed.

Example trim_unicode : trim [160; 9; 104; 32; 105; 8232; 65279]%N
                       = [104; 32; 105]%N.
Proof. reflexivity. Qed.

Example decimal_500 : decimal 500 = js "500".
Proof. reflexivity. Qed.

Example ToString_array :
  ToString (JArr [integer 1; JNull; JArr [JStr (js "a"); JBool true];
                  JObj [(js "valueOf", integer 0)]])
  = Ok (js "1,,a,true,[object Object]").
Proof. reflexivity. Qed.

Example ToString_hidden :
  ToString (JArr [JObj [(js "toString", integer 0)]])
  = Throw (type_error (js "Cannot convert object to primitive value")).
Proof. reflexivity. Qed.

Lemma trimStart_white (s : jsstring) :
  Forall (fun c => is_white_space c = true) s -> trimStart s = [].
Proof.
  induction 1 as [|c s Hc _ IH]; simpl.
  - reflexivity.
  - now rewrite Hc.
Qed.

Lemma trim_white (s : jsstring) :
  Forall (fun c => is_white_space c = true) s -> trim s = [].
Proof.
  intros H. unfold trim, trimEnd. now rewrite (trimStart_white s H).
Qed.

Lemma trimStart_empty (s : jsstring) :
  trimStart s = [] -> Forall (fun c => is_white_space c = true) s.
Proof.
  induction s as [|c s IH]; simpl; intros H.
  - constructor.
  - destruct (is_white_space c) eqn:Hc; [|discriminate].
    constructor; auto.
Qed.

Lemma trimStart_head (s : jsstring) c t :
  trimStart s = c :: t -> is_white_space c = false.
Proof.
  induction s as [|d s IH]; simpl; [discriminate|].
  destruct (is_white_space d) eqn:Hd; auto.
  intros H. now inversion H; subst.
Qed.

(** The trimmed text is empty exactly for the strings of white space. *)
Lemma trim_empty_iff (s : jsstring) :
  trim s = [] <-> Forall (fun c => is_white_space c = true) s.
Proof.
  split; [|apply trim_white].
  unfold trim, trimEnd. intros H.
  apply (f_equal (@rev N)) in H. rewrite rev_involutive in H. simpl in H.
  apply trimStart_empty in H.
  destruct (trimStart s) as [|c t] eqn:Hs.
  - now apply trimStart_empty.
  - apply trimStart_head in Hs.
    rewrite Forall_forall in H.
    rewrite (H c) in Hs; [discriminate|].
    apply in_rev. rewrite rev_involutive. now left.
Qed.

Lemma jsstring_eqb_refl (a : jsstring) : jsstring_eqb a a = true.
Proof.
  induction a as [|x a IH]; simpl; [reflexivity|].
  now rewrite N.eqb_refl.
Qed.

Lemma existsb_filter_out (t : jsstring) (l : list jsstring) :
  existsb (jsstring_eqb t) (filter (fun u => negb (jsstring_eqb t u)) l)
  = false.
Proof.
  induction l as [|u l IH]; simpl; [reflexivity|].
  destruct (jsstring_eqb t u) eqn:E; simpl; [assumption|].
  now rewrite E.
Qed.

Lemma existsb_snoc (t : jsstring) (l : list jsstring) :
  existsb (jsstring_eqb t) (l ++ [t]) = true.
Proof.
  rewrite existsb_app. simpl. rewrite jsstring_eqb_refl.
  now rewrite orb_true_r.
Qed.

Lemma skipn_length_app {A} (l k : list A) :
  skipn (List.length l) (l ++ k) = k.
Proof. induction l; simpl; auto. Qed.

Lemma skipn_length {A} (l : list A) : skipn (List.length l) l = [].
Proof. induction l; simpl; auto. Qed.

Lemma blank_trim (s : jsstring) : blank s = true -> trim s = [].
Proof.
  intros B. apply trim_white. apply Forall_forall.
  unfold blank in B. rewrite forallb_forall in B. exact B.
Qed.

Lemma is_empty_false (s : jsstring) : is_empty s = false -> s <> [].
Proof. destruct s; [discriminate|discriminate]. Qed.

(** ** The segments, evaluated *)

Ltac run :=
  cbv [AppStatic.sendMessage AppStatic.catch AppStatic.fetch_settled
       AppStatic.json_settled AppStatic.addMessageToChatbox
       AppStatic.exchange AppStatic.API_URL
       Popup.sendMessage Popup.catch Popup.fetch_settled Popup.json_settled
       Popup.addMessageToChatbox Popup.addThinkingIndicator Popup.exchange
       Popup.toggleChat Popup.API_URL
       bind ret throw try_catch eval await record exec
       createElement contains removeChild appendChild textContent
       userInput_value set_userInput_value fetch console_error
       classList_contains classList_add classList_remove
       with_chatbox with_chatPopup];
  cbn [chatbox fresh userInput chatPopup history fst snd is_empty ToString
       handle sender_class inner].

Section Segments.
Context {engine : Engine}.

Ltac by_presence h p :=
  unfold AppStatic_caught, Popup_caught, AppStatic_network, Popup_network,
    removing, appending, logging, dropping_node, paragraph;
  let E := fresh "E" in
  destruct (existsb (is_node h) (chatbox p)) eqn:E;
  cbn [chatbox fresh userInput chatPopup history];
  repeat (rewrite E; cbn [chatbox fresh userInput chatPopup history]);
  try reflexivity.

Lemma AppStatic_sendMessage_empty (p : page) :
  trim (userInput p) = [] -> AppStatic.sendMessage p = (Ok None, p).
Proof. intros H. run. now rewrite H. Qed.

Lemma Popup_sendMessage_empty (p : page) :
  trim (userInput p) = [] -> Popup.sendMessage p = (Ok None, p).
Proof. intros H. run. now rewrite H. Qed.

Lemma AppStatic_sendMessage_sent (p : page) :
  trim (userInput p) <> [] ->
  AppStatic.sendMessage p =
  (Ok (Some (S (fresh p))), sent AppStatic_thinking p).
Proof.
  intros H. run. unfold sent, dispatch.
  destruct (trim (userInput p)) as [|c m]; [congruence|].
  cbn [is_empty]. rewrite <- !app_assoc. reflexivity.
Qed.

Lemma Popup_sendMessage_sent (p : page) :
  trim (userInput p) <> [] ->
  Popup.sendMessage p =
  (Ok (Some (S (fresh p))), sent Popup_thinking p).
Proof.
  intros H. run. unfold sent, dispatch.
  destruct (trim (userInput p)) as [|c m]; [congruence|].
  cbn [is_empty]. rewrite <- !app_assoc. reflexivity.
Qed.

Lemma AppStatic_catch_eq (h : nat) (err : exception) (p : page) :
  AppStatic.catch h err p = (Ok tt, AppStatic_caught h err p).
Proof. run. by_presence h p. Qed.

Lemma Popup_catch_eq (h : nat) (err : exception) (p : page) :
  Popup.catch h err p = (Ok tt, Popup_caught h err p).
Proof. run. by_presence h p. Qed.

Lemma AppStatic_fetch_rejected (h : nat) (err : exception) (p : page) :
  AppStatic.fetch_settled h (Rejected err) p
  = (Ok None, AppStatic_caught h err p).
Proof. run. by_presence h p. Qed.

Lemma Popup_fetch_rejected (h : nat) (err : exception) (p : page) :
  Popup.fetch_settled h (Rejected err) p = (Ok None, Popup_caught h err p).
Proof. run. by_presence h p. Qed.

Lemma AppStatic_fetch_fulfilled (h : nat) (r : response) (p : page) :
  AppStatic.fetch_settled h (Fulfilled r) p
  = (Ok (Some (if ok r then AwaitData h r else AwaitErrorData h r)),
     removing h p).
Proof. run. destruct (ok r); by_presence h p. Qed.

Lemma Popup_fetch_fulfilled (h : nat) (r : response) (p : page) :
  Popup.fetch_settled h (Fulfilled r) p
  = (Ok (Some (if ok r then AwaitData h r else AwaitErrorData h r)),
     removing h p).
Proof. run. destruct (ok r); by_presence h p. Qed.

(** A property is truthy on an object only. *)
Lemma get_truthy (data v : value) (key : jsstring) :
  get data key = Ok v -> truthy v = true -> truthy data = true.
Proof.
  destruct data; simpl; intros G T; try reflexivity;
    inversion G; subst; discriminate T.
Qed.

Lemma AppStatic_data_rejected (h : nat) (r : response) (err : exception)
    (p : page) :
  AppStatic.json_settled (AwaitData h r) (Rejected err) p
  = (Ok tt, AppStatic_caught h err p).
Proof. run. by_presence h p. Qed.

Lemma AppStatic_reply_falsy (h : nat) (r : response) (data v : value) (p : page) :
  get data (js "reply") = Ok v -> truthy v = false ->
  AppStatic.json_settled (AwaitData h r) (Fulfilled data) p
  = (Ok tt, appending error AppStatic_invalid p).
Proof.
  intros G T. run. destruct (truthy data) eqn:D.
  - rewrite G. now rewrite T.
  - now rewrite D.
Qed.

Lemma AppStatic_data_falsy (h : nat) (r : response) (data : value) (p : page) :
  truthy data = false ->
  AppStatic.json_settled (AwaitData h r) (Fulfilled data) p
  = (Ok tt, appending error AppStatic_invalid p).
Proof. intros D. run. rewrite D. now rewrite D. Qed.

Lemma AppStatic_reply_shown (h : nat) (r : response) (data v : value)
    (t : jsstring) (p : page) :
  get data (js "reply") = Ok v -> truthy v = true -> ToString v = Ok t ->
  AppStatic.json_settled (AwaitData h r) (Fulfilled data) p
  = (Ok tt, appending bot t p).
Proof.
  intros G T C. run. rewrite (get_truthy _ _ _ G T), G, T.
  destruct v; try discriminate T; rewrite C; reflexivity.
Qed.

Lemma AppStatic_reply_unprintable (h : nat) (r : response) (data v : value)
    (e : exception) (p : page) :
  get data (js "reply") = Ok v -> truthy v = true -> ToString v = Throw e ->
  AppStatic.json_settled (AwaitData h r) (Fulfilled data) p
  = (Ok tt, AppStatic_caught h e (dropping_node p)).
Proof.
  intros G T C. run. rewrite (get_truthy _ _ _ G T), G, T.
  destruct v; try discriminate T; rewrite C; by_presence h p.
Qed.

Lemma AppStatic_error_rejected (h : nat) (r : response) (err : exception)
    (p : page) :
  AppStatic.json_settled (AwaitErrorData h r) (Rejected err) p
  = (Ok tt,
     appending error (js "Error: " ++ synthesized r)
       (logging (js "API Error Response:") (LogValue (synthesized_body r)) p)).
Proof. reflexivity. Qed.

Lemma AppStatic_error_shown (h : nat) (r : response) (data v : value)
    (t : jsstring) (p : page) :
  get data (js "error") = Ok v -> truthy v = true -> ToString v = Ok t ->
  AppStatic.json_settled (AwaitErrorData h r) (Fulfilled data) p
  = (Ok tt,
     appending error (js "Error: " ++ t)
       (logging (js "API Error Response:") (LogValue data) p)).
Proof. intros G T C. run. rewrite G, T, C. reflexivity. Qed.

Lemma AppStatic_error_fallback (h : nat) (r : response) (data v : value)
    (p : page) :
  get data (js "error") = Ok v -> truthy v = false ->
  AppStatic.json_settled (AwaitErrorData h r) (Fulfilled data) p
  = (Ok tt,
     appending error (js "Error: " ++ statusText r)
       (logging (js "API Error Response:") (LogValue data) p)).
Proof. intros G T. run. rewrite G, T. reflexivity. Qed.

Lemma AppStatic_error_nullish (h : nat) (r : response) (data : value)
    (e : exception) (p : page) :
  get data (js "error") = Throw e ->
  AppStatic.json_settled (AwaitErrorData h r) (Fulfilled data) p
  = (Ok tt,
     AppStatic_caught h e (logging (js "API Error Response:") (LogValue data) p)).
Proof. intros G. run. rewrite G. by_presence h p. Qed.

Lemma AppStatic_error_unprintable (h : nat) (r : response) (data v : value)
    (e : exception) (p : page) :
  get data (js "error") = Ok v -> truthy v = true -> ToString v = Throw e ->
  AppStatic.json_settled (AwaitErrorData h r) (Fulfilled data) p
  = (Ok tt,
     AppStatic_caught h e (logging (js "API Error Response:") (LogValue data) p)).
Proof. intros G T C. run. rewrite G, T, C. by_presence h p. Qed.

Lemma Popup_data_rejected (h : nat) (r : response) (err : exception)
    (p : page) :
  Popup.json_settled (AwaitData h r) (Rejected err) p
  = (Ok tt, Popup_caught h err p).
Proof. run. by_presence h p. Qed.

Lemma Popup_reply_falsy (h : nat) (r : response) (data v : value) (p : page) :
  get data (js "reply") = Ok v -> truthy v = false ->
  Popup.json_settled (AwaitData h r) (Fulfilled data) p
  = (Ok tt, appending error Popup_invalid p).
Proof.
  intros G T. run. destruct (truthy data) eqn:D.
  - rewrite G. now rewrite T.
  - now rewrite D.
Qed.

Lemma Popup_data_falsy (h : nat) (r : response) (data : value) (p : page) :
  truthy data = false ->
  Popup.json_settled (AwaitData h r) (Fulfilled data) p
  = (Ok tt, appending error Popup_invalid p).
Proof. intros D. run. rewrite D. now rewrite D. Qed.

Lemma Popup_reply_shown (h : nat) (r : response) (data v : value)
    (t : jsstring) (p : page) :
  get data (js "reply") = Ok v -> truthy v = true -> ToString v = Ok t ->
  Popup.json_settled (AwaitData h r) (Fulfilled data) p
  = (Ok tt, appending bot t p).
Proof.
  intros G T C. run. rewrite (get_truthy _ _ _ G T), G, T.
  destruct v; try discriminate T; rewrite C; reflexivity.
Qed.

Lemma Popup_reply_unprintable (h : nat) (r : response) (data v : value)
    (e : exception) (p : page) :
  get data (js "reply") = Ok v -> truthy v = true -> ToString v = Throw e ->
  Popup.json_settled (AwaitData h r) (Fulfilled data) p
  = (Ok tt, Popup_caught h e (dropping_node p)).
Proof.
  intros G T C. run. rewrite (get_truthy _ _ _ G T), G, T.
  destruct v; try discriminate T; rewrite C; by_presence h p.
Qed.

Lemma Popup_error_rejected (h : nat) (r : response) (err : exception)
    (p : page) :
  Popup.json_settled (AwaitErrorData h r) (Rejected err) p
  = (Ok tt,
     appending error (js "Error: " ++ synthesized r)
       (logging (js "API Error:") (LogValue (synthesized_body r)) p)).
Proof. reflexivity. Qed.

Lemma Popup_error_shown (h : nat) (r : response) (data v : value)
    (t : jsstring) (p : page) :
  get data (js "error") = Ok v -> truthy v = true -> ToString v = Ok t ->
  Popup.json_settled (AwaitErrorData h r) (Fulfilled data) p
  = (Ok tt,
     appending error (js "Error: " ++ t)
       (logging (js "API Error:") (LogValue data) p)).
Proof. intros G T C. run. rewrite G, T, C. reflexivity. Qed.

Lemma Popup_error_fallback (h : nat) (r : response) (data v : value)
    (p : page) :
  get data (js "error") = Ok v -> truthy v = false ->
  Popup.json_settled (AwaitErrorData h r) (Fulfilled data) p
  = (Ok tt,
     appending error (js "Error: " ++ statusText r)
       (logging (js "API Error:") (LogValue data) p)).
Proof. intros G T. run. rewrite G, T. reflexivity. Qed.

Lemma Popup_error_nullish (h : nat) (r : response) (data : value)
    (e : exception) (p : page) :
  get data (js "error") = Throw e ->
  Popup.json_settled (AwaitErrorData h r) (Fulfilled data) p
  = (Ok tt,
     Popup_caught h e (logging (js "API Error:") (LogValue data) p)).
Proof. intros G. run. rewrite G. by_presence h p. Qed.

Lemma Popup_error_unprintable (h : nat) (r : response) (data v : value)
    (e : exception) (p : page) :
  get data (js "error") = Ok v -> truthy v = true -> ToString v = Throw e ->
  Popup.json_settled (AwaitErrorData h r) (Fulfilled data) p
  = (Ok tt,
     Popup_caught h e (logging (js "API Error:") (LogValue data) p)).
Proof. intros G T C. run. rewrite G, T, C. by_presence h p. Qed.

End Segments.

(** ** One exchange, from submission to the terminal entry *)

Section Exchanges.
Context {engine : Engine}.

Lemma is_node_older (h : nat) (l : list element) :
  Forall (fun e => handle e < h) l ->
  filter (fun e => negb (is_node h e)) l = l
  /\ existsb (is_node h) l = false.
Proof.
  induction 1 as [|e l He _ [IH1 IH2]]; simpl; [auto|].
  assert (N : is_node h e = false).
  { unfold is_node. apply Nat.eqb_neq. lia. }
  rewrite N. simpl. now rewrite IH1, IH2.
Qed.

(** The page once the response of the exchange has arrived. *)
Lemma removing_sent (thinking : nat -> element) (p : page) :
  older_nodes p = true ->
  handle (thinking (S (fresh p))) = S (fresh p) ->
  removing (S (fresh p)) (sent thinking p) =
  {| chatbox := chatbox p ++ [paragraph (fresh p) user (trim (userInput p))];
     fresh := S (S (fresh p));
     userInput := [];
     chatPopup := chatPopup p;
     history := history p ++ dispatch thinking p ++ [Removed (S (fresh p))] |}.
Proof.
  intros O T. unfold removing, sent.
  cbn [chatbox fresh userInput chatPopup history].
  assert (O' : Forall (fun e => handle e < S (fresh p)) (chatbox p)).
  { apply Forall_forall. intros e He.
    unfold older_nodes in O. rewrite forallb_forall in O.
    specialize (O e He). apply Nat.ltb_lt in O. lia. }
  destruct (is_node_older _ _ O') as [F X].
  assert (N : (fresh p =? S (fresh p)) = false) by (apply Nat.eqb_neq; lia).
  rewrite existsb_app, filter_app, F, X.
  cbn [existsb filter]. unfold is_node. cbn [paragraph handle].
  rewrite T, Nat.eqb_refl, N.
  cbn [negb orb]. unfold dispatch. now rewrite <- app_assoc.
Qed.

(** A second guarded removal finds nothing to remove. *)
Lemma removing_absent (h : nat) (p : page) :
  existsb (is_node h) (chatbox p) = false -> removing h p = p.
Proof. unfold removing. now intros ->. Qed.

Lemma fresh_removing (h : nat) (p : page) : fresh (removing h p) = fresh p.
Proof. unfold removing. now destruct (existsb _ _). Qed.

Lemma exchanged_appending (thinking : nat -> element) (p q : page)
    (diagnostics : list event) (who : sender) (text : jsstring) (k : nat) :
  older_nodes p = true ->
  handle (thinking (S (fresh p))) = S (fresh p) ->
  chatbox q = chatbox (removing (S (fresh p)) (sent thinking p)) ->
  history q = history (removing (S (fresh p)) (sent thinking p))
              ++ diagnostics ->
  fresh q = k ->
  exchanged thinking p (appending who text q) diagnostics
            (paragraph k who text).
Proof.
  intros O T C H <-. rewrite (removing_sent thinking p O T) in C, H.
  cbn [chatbox history] in C, H.
  unfold exchanged, since, appending. cbn [chatbox history].
  rewrite C, H. split.
  - now rewrite <- app_assoc.
  - rewrite <- !app_assoc. apply skipn_length_app.
Qed.

(** In the [catch] block after the removal the guard is false. *)
Lemma removing_again (thinking : nat -> element) (p q : page) :
  older_nodes p = true ->
  handle (thinking (S (fresh p))) = S (fresh p) ->
  chatbox q = chatbox (removing (S (fresh p)) (sent thinking p)) ->
  removing (S (fresh p)) q = q.
Proof.
  intros O T C. apply removing_absent. rewrite C, (removing_sent thinking p O T).
  cbn [chatbox]. rewrite existsb_app.
  assert (O' : Forall (fun e => handle e < S (fresh p)) (chatbox p)).
  { apply Forall_forall. intros e He.
    unfold older_nodes in O. rewrite forallb_forall in O.
    specialize (O e He). apply Nat.ltb_lt in O. lia. }
  assert (N : (fresh p =? S (fresh p)) = false) by (apply Nat.eqb_neq; lia).
  destruct (is_node_older _ _ O') as [_ ->].
  cbn [existsb]. unfold is_node. cbn [paragraph handle]. now rewrite N.
Qed.

End Exchanges.

(** ** Validation of the input *)

Section Validation.
Context {engine : Engine}.

(** C5.  When the input field holds nothing but white space (or nothing),
    [sendMessage] of either script returns at once and leaves the page as it
    was: no entry appended, no indicator created, no request sent, nothing
    left to resume. *)
Theorem blank_input_is_a_no_op (p : page) :
  blank (userInput p) = true ->
  AppStatic.sendMessage p = (Ok None, p)
  /\ Popup.sendMessage p = (Ok None, p).
Proof.
  intros B. apply blank_trim in B. split.
  - now apply AppStatic_sendMessage_empty.
  - now apply Popup_sendMessage_empty.
Qed.

(** C10.  When the input field holds nothing but white space (or nothing),
    [sendMessage] leaves the content of the field unchanged and does not
    assign it. *)
Theorem blank_input_keeps_the_field (p : page) :
  blank (userInput p) = true ->
  (userInput (exec AppStatic.sendMessage p) = userInput p
   /\ existsb is_input_assignment (since p (exec AppStatic.sendMessage p))
      = false)
  /\ (userInput (exec Popup.sendMessage p) = userInput p
      /\ existsb is_input_assignment (since p (exec Popup.sendMessage p))
         = false).
Proof.
  intros B. apply blank_trim in B. unfold exec.
  rewrite (AppStatic_sendMessage_empty p B), (Popup_sendMessage_empty p B).
  cbn [snd]. unfold since. rewrite skipn_length. auto.
Qed.

(** C7.  When the trimmed input is not empty, the synchronous part of
    [sendMessage] appends one entry of the user with the trimmed text,
    empties the input field, appends the thinking indicator and only then
    sends the request; the rest of the function holds the indicator. *)
Theorem user_entry_precedes_the_request (p : page) :
  is_empty (trim (userInput p)) = false ->
  (fst (AppStatic.sendMessage p) = Ok (Some (S (fresh p)))
   /\ chatbox (exec AppStatic.sendMessage p)
      = chatbox p ++ [paragraph (fresh p) user (trim (userInput p));
                      AppStatic_thinking (S (fresh p))]
   /\ userInput (exec AppStatic.sendMessage p) = []
   /\ since p (exec AppStatic.sendMessage p)
      = [Appended (paragraph (fresh p) user (trim (userInput p)));
         InputAssigned [];
         Appended (AppStatic_thinking (S (fresh p)));
         Fetched (chat_request (trim (userInput p)))])
  /\ (fst (Popup.sendMessage p) = Ok (Some (S (fresh p)))
      /\ chatbox (exec Popup.sendMessage p)
         = chatbox p ++ [paragraph (fresh p) user (trim (userInput p));
                         Popup_thinking (S (fresh p))]
      /\ userInput (exec Popup.sendMessage p) = []
      /\ since p (exec Popup.sendMessage p)
         = [Appended (paragraph (fresh p) user (trim (userInput p)));
            InputAssigned [];
            Appended (Popup_thinking (S (fresh p)));
            Fetched (chat_request (trim (userInput p)))]).
Proof.
  intros E. apply is_empty_false in E. unfold exec.
  rewrite (AppStatic_sendMessage_sent p E), (Popup_sendMessage_sent p E).
  unfold since, sent. cbn [fst snd chatbox userInput history].
  rewrite !skipn_length_app. repeat split.
Qed.

End Validation.

(** ** The panel *)

Section Panel.
Context {engine : Engine}.

Lemma panelState_toggleChat (p : page) :
  panelState (exec Popup.toggleChat p) = flip (panelState p).
Proof.
  unfold panelState. run.
  destruct (existsb (jsstring_eqb Popup.hidden) (chatPopup p)) eqn:H;
    cbn [chatPopup snd flip].
  - now rewrite existsb_filter_out.
  - rewrite H. cbn [chatPopup]. now rewrite existsb_snoc.
Qed.

(** C8.  [toggleChat] flips the state of the panel between closed and open,
    and two calls in a row leave the state where it was, whatever it was;
    so a closed panel is closed again. *)
Theorem toggleChat_twice (p : page) :
  panelState (exec Popup.toggleChat p) = flip (panelState p)
  /\ panelState (exec Popup.toggleChat (exec Popup.toggleChat p))
     = panelState p
  /\ panelState template_page = closed
  /\ panelState (exec Popup.toggleChat (exec Popup.toggleChat template_page))
     = closed.
Proof.
  rewrite !panelState_toggleChat.
  destruct (panelState p); cbn [flip]; auto.
Qed.

End Panel.

(** ** How an exchange ends *)

Section Outcomes.
Context {engine : Engine}.

Lemma AppStatic_exchange_sent (o : settled response) (j : settled value)
    (p : page) :
  is_empty (trim (userInput p)) = false ->
  exec (AppStatic.exchange o j) p =
  match AppStatic.fetch_settled (S (fresh p)) o (sent AppStatic_thinking p)
  with
  | (Ok (Some s), q) => exec (AppStatic.json_settled s j) q
  | (_, q) => q
  end.
Proof.
  intros E. apply is_empty_false in E.
  unfold exec, AppStatic.exchange, bind.
  rewrite (AppStatic_sendMessage_sent p E).
  destruct (AppStatic.fetch_settled _ _ _) as [[[s|]|e] q]; reflexivity.
Qed.

Lemma Popup_exchange_sent (o : settled response) (j : settled value)
    (p : page) :
  is_empty (trim (userInput p)) = false ->
  exec (Popup.exchange o j) p =
  match Popup.fetch_settled (S (fresh p)) o (sent Popup_thinking p) with
  | (Ok (Some s), q) => exec (Popup.json_settled s j) q
  | (_, q) => q
  end.
Proof.
  intros E. apply is_empty_false in E.
  unfold exec, Popup.exchange, bind.
  rewrite (Popup_sendMessage_sent p E).
  destruct (Popup.fetch_settled _ _ _) as [[[s|]|e] q]; reflexivity.
Qed.

(** Brings an exchange that got a response to the page its last segment
    leaves, by the equation [L] of that segment. *)
Ltac responded E L :=
  first [ rewrite (AppStatic_exchange_sent _ _ _ E),
            AppStatic_fetch_fulfilled
        | rewrite (Popup_exchange_sent _ _ _ E), Popup_fetch_fulfilled ];
  match goal with
  | H : ok _ = _ |- _ => rewrite H
  end;
  unfold exec; rewrite L; cbn [snd].

(** Closes [exchanged] for a page that is [appending] onto the page after
    the removal, with console output and dropped nodes in between. *)
Ltac appended O :=
  unfold AppStatic_caught, Popup_caught;
  rewrite ?(removing_again AppStatic_thinking _ _ O eq_refl eq_refl);
  rewrite ?(removing_again Popup_thinking _ _ O eq_refl eq_refl);
  first [ apply (exchanged_appending AppStatic_thinking _ _ _ _ _ _ O eq_refl)
        | apply (exchanged_appending Popup_thinking _ _ _ _ _ _ O eq_refl) ];
  unfold logging, dropping_node; cbn [chatbox history fresh];
  rewrite <- ?app_assoc, ?app_nil_r, ?fresh_removing; reflexivity.


(** Brings an exchange whose request failed to the page the [catch] block
    leaves. *)
Ltac unanswered E :=
  first [ rewrite (AppStatic_exchange_sent _ _ _ E), AppStatic_fetch_rejected
        | rewrite (Popup_exchange_sent _ _ _ E), Popup_fetch_rejected ].

Lemma includes_here (m rest : jsstring) : starts_with m (m ++ rest) = true.
Proof.
  induction m as [|c m IH]; simpl; [reflexivity|].
  now rewrite N.eqb_refl.
Qed.

Lemma includes_middle (before m rest : jsstring) :
  includes m (before ++ m ++ rest) = true.
Proof.
  induction before as [|c before IH]; simpl.
  - pose proof (includes_here m rest) as H.
    destruct (m ++ rest); simpl; now rewrite H.
  - rewrite IH. apply orb_true_r.
Qed.


(** C3, amended.  For an input that is not empty after trimming and a
    response whose status is not OK: when the body parses to a value other
    than [null] and its [error] is truthy and has a text, the exchange ends
    with exactly one entry of class error whose text is ["Error: "] and the
    text of [error]; when [error] is missing or falsy, the text is
    ["Error: "] and the status text of the response; when the body does not
    parse, the text is ["Error: HTTP error! Status: "] and the status code
    in decimal.  The body, or the object made up for it, goes to the
    console first. *)
Theorem error_response_is_rendered (p : page) (r : response) (data v : value)
    (t : jsstring) (err : exception) :
  older_nodes p = true ->
  is_empty (trim (userInput p)) = false ->
  ok r = false ->
  get data (js "error") = Ok v ->
  ToString v = Ok t ->
  (exchanged AppStatic_thinking p
     (exec (AppStatic.exchange (Fulfilled r) (Fulfilled data)) p)
     [ConsoleError (js "API Error Response:") (LogValue data)]
     (paragraph (S (S (fresh p))) error
        (js "Error: " ++ (if truthy v then t else statusText r)))
   /\ exchanged Popup_thinking p
        (exec (Popup.exchange (Fulfilled r) (Fulfilled data)) p)
        [ConsoleError (js "API Error:") (LogValue data)]
        (paragraph (S (S (fresh p))) error
           (js "Error: " ++ (if truthy v then t else statusText r))))
  /\ (exchanged AppStatic_thinking p
        (exec (AppStatic.exchange (Fulfilled r) (Rejected err)) p)
        [ConsoleError (js "API Error Response:")
           (LogValue (synthesized_body r))]
        (paragraph (S (S (fresh p))) error
           (js "Error: " ++ js "HTTP error! Status: " ++ decimal (status r)))
      /\ exchanged Popup_thinking p
           (exec (Popup.exchange (Fulfilled r) (Rejected err)) p)
           [ConsoleError (js "API Error:") (LogValue (synthesized_body r))]
           (paragraph (S (S (fresh p))) error
              (js "Error: " ++ js "HTTP error! Status: "
               ++ decimal (status r)))).
Proof.
  intros O E K G C. split; [split|split].
  - destruct (truthy v) eqn:T.
    + responded E (AppStatic_error_shown (S (fresh p)) r data v t
                     (removing (S (fresh p)) (sent AppStatic_thinking p))
                     G T C).
      appended O.
    + responded E (AppStatic_error_fallback (S (fresh p)) r data v
                     (removing (S (fresh p)) (sent AppStatic_thinking p))
                     G T).
      appended O.
  - destruct (truthy v) eqn:T.
    + responded E (Popup_error_shown (S (fresh p)) r data v t
                     (removing (S (fresh p)) (sent Popup_thinking p))
                     G T C).
      appended O.
    + responded E (Popup_error_fallback (S (fresh p)) r data v
                     (removing (S (fresh p)) (sent Popup_thinking p)) G T).
      appended O.
  - responded E (AppStatic_error_rejected (S (fresh p)) r err
                   (removing (S (fresh p)) (sent AppStatic_thinking p))).
    appended O.
  - responded E (Popup_error_rejected (S (fresh p)) r err
                   (removing (S (fresh p)) (sent Popup_thinking p))).
    appended O.
Qed.

(** C4, amended.  For an input that is not empty after trimming and a
    request that fails before any response: the exception goes to the
    console and the exchange ends with exactly one entry of class error.
    In the popup script its text is the fixed ["Connection error. Please
    try again later."], whatever the exception.  In [app/static/script.js]
    its text is ["Network error or failed to connect to the server. ("],
    the message of the exception and [")"]: the message is shown as it is,
    the name and the stack of the exception are not used. *)
Theorem transport_failure_is_rendered (p : page) (err : exception)
    (j : settled value) :
  older_nodes p = true ->
  is_empty (trim (userInput p)) = false ->
  exchanged Popup_thinking p
    (exec (Popup.exchange (Rejected err) j) p)
    [ConsoleError (js "Fetch Error:") (LogError err)]
    (paragraph (S (S (fresh p))) error
       (js "Connection error. Please try again later."))
  /\ exchanged AppStatic_thinking p
       (exec (AppStatic.exchange (Rejected err) j) p)
       [ConsoleError (js "Fetch Error:") (LogError err)]
       (paragraph (S (S (fresh p))) error
          (js "Network error or failed to connect to the server. ("
           ++ message err ++ js ")"))
  /\ includes (message err)
       (js "Network error or failed to connect to the server. ("
        ++ message err ++ js ")") = true.
Proof.
  intros O E. split; [|split].
  - unanswered E. appended O.
  - unanswered E. appended O.
  - apply includes_middle.
Qed.

(** C9, amended.  For an input that is not empty after trimming and a
    response with an OK status whose body has a [reply], the truthiness of
    the reply decides the entry that ends the exchange: a falsy reply, such
    as the empty string, gives the entry of class error with the fixed
    "empty or invalid response" text; a truthy reply that converts to a
    string, of whatever type, gives an entry of class bot whose text is that
    string. *)
Theorem truthiness_decides_the_entry (p : page) (r : response)
    (data v : value) (t : jsstring) :
  older_nodes p = true ->
  is_empty (trim (userInput p)) = false ->
  ok r = true ->
  get data (js "reply") = Ok v ->
  ToString v = Ok t ->
  exchanged AppStatic_thinking p
    (exec (AppStatic.exchange (Fulfilled r) (Fulfilled data)) p)
    [] (if truthy v
        then paragraph (S (S (fresh p))) bot t
        else paragraph (S (S (fresh p))) error AppStatic_invalid)
  /\ exchanged Popup_thinking p
       (exec (Popup.exchange (Fulfilled r) (Fulfilled data)) p)
       [] (if truthy v
           then paragraph (S (S (fresh p))) bot t
           else paragraph (S (S (fresh p))) error Popup_invalid).
Proof.
  intros O E K G C. split.
  - destruct (truthy v) eqn:T.
    + responded E (AppStatic_reply_shown (S (fresh p)) r data v t
                     (removing (S (fresh p)) (sent AppStatic_thinking p))
                     G T C).
      appended O.
    + responded E (AppStatic_reply_falsy (S (fresh p)) r data v
                     (removing (S (fresh p)) (sent AppStatic_thinking p))
                     G T).
      appended O.
  - destruct (truthy v) eqn:T.
    + responded E (Popup_reply_shown (S (fresh p)) r data v t
                     (removing (S (fresh p)) (sent Popup_thinking p))
                     G T C).
      appended O.
    + responded E (Popup_reply_falsy (S (fresh p)) r data v
                     (removing (S (fresh p)) (sent Popup_thinking p)) G T).
      appended O.
Qed.

End Outcomes.

(** ** Runs on the page of the template *)

Lemma blank_input_is_a_no_op_witness :
  blank (userInput (typed [32; 9; 160; 10]%N)) = true
  /\ AppStatic.sendMessage (typed [32; 9; 160; 10]%N)
     = (Ok None, typed [32; 9; 160; 10]%N)
  /\ Popup.sendMessage (typed [32; 9; 160; 10]%N)
     = (Ok None, typed [32; 9; 160; 10]%N).
Proof.
  split; [reflexivity|].
  apply (blank_input_is_a_no_op (typed [32; 9; 160; 10]%N)). reflexivity.
Defined.

Lemma blank_input_keeps_the_field_witness :
  blank (userInput (typed (js "   "))) = true
  /\ userInput (exec Popup.sendMessage (typed (js "   "))) = js "   ".
Proof.
  split; [reflexivity|].
  apply (blank_input_keeps_the_field (typed (js "   "))). reflexivity.
Defined.

Lemma user_entry_precedes_the_request_witness :
  is_empty (trim (userInput (typed (js " hi ")))) = false
  /\ since (typed (js " hi ")) (exec Popup.sendMessage (typed (js " hi ")))
     = [Appended (paragraph 1 user (js "hi"));
        InputAssigned [];
        Appended (Popup_thinking 2);
        Fetched (chat_request (js "hi"))].
Proof.
  split; [reflexivity|].
  apply (user_entry_precedes_the_request (typed (js " hi "))). reflexivity.
Defined.



Lemma error_response_is_rendered_witness :
  exchanged Popup_thinking (typed (js "hello"))
    (exec (Popup.exchange (Fulfilled response_500)
             (Fulfilled (JObj [(js "error", JStr (js "db down"))])))
          (typed (js "hello")))
    [ConsoleError (js "API Error:")
       (LogValue (JObj [(js "error", JStr (js "db down"))]))]
    (paragraph 3 error (js "Error: db down"))
  /\ exchanged Popup_thinking (typed (js "hello"))
       (exec (Popup.exchange (Fulfilled response_500) (Rejected not_json))
             (typed (js "hello")))
       [ConsoleError (js "API Error:")
          (LogValue (JObj [(js "error",
                            JStr (js "HTTP error! Status: 500"))]))]
       (paragraph 3 error (js "Error: HTTP error! Status: 500")).
Proof.
  split;
    apply (error_response_is_rendered (typed (js "hello")) response_500
             (JObj [(js "error", JStr (js "db down"))])
             (JStr (js "db down")) (js "db down") not_json);
    reflexivity.
Defined.

Lemma transport_failure_is_rendered_witness :
  exchanged Popup_thinking (typed (js "hello"))
    (exec (Popup.exchange (Rejected failed_to_fetch) (Rejected not_json))
          (typed (js "hello")))
    [ConsoleError (js "Fetch Error:") (LogError failed_to_fetch)]
    (paragraph 3 error (js "Connection error. Please try again later.")).
Proof.
  apply (transport_failure_is_rendered (typed (js "hello")) failed_to_fetch
           (Rejected not_json)); reflexivity.
Defined.

Lemma truthiness_decides_the_entry_witness :
  exchanged Popup_thinking (typed (js "hello"))
    (exec (Popup.exchange (Fulfilled response_200)
             (Fulfilled (JObj [(js "reply", integer 42)])))
          (typed (js "hello")))
    [] (paragraph 3 bot (js "42"))
  /\ exchanged Popup_thinking (typed (js "hello"))
       (exec (Popup.exchange (Fulfilled response_200)
                (Fulfilled (JObj [(js "reply", JStr (js ""))])))
             (typed (js "hello")))
       [] (paragraph 3 error (js "Received an empty or invalid response.")).
Proof.
  split.
  - apply (truthiness_decides_the_entry (typed (js "hello")) response_200
             (JObj [(js "reply", integer 42)]) (integer 42) (js "42"));
      reflexivity.
  - apply (truthiness_decides_the_entry (typed (js "hello")) response_200
             (JObj [(js "reply", JStr (js ""))]) (JStr (js "")) (js ""));
      reflexivity.
Defined.


(** C3 as stated fails: with status 500, the body [null] parses and has no
    [error], yet the text is that of the [catch] block, not the status
    text; and the body [{"error": ""}] has an [error] whose text is not
    what is shown. *)
Lemma null_error_body_is_a_connection_error :
  lastChild (exec (Popup.exchange (Fulfilled response_500)
                     (Fulfilled JNull)) (typed (js "hello")))
  = Some (paragraph 3 error (js "Connection error. Please try again later."))
  /\ includes (js "Internal Server Error")
       (js "Connection error. Please try again later.") = false
  /\ lastChild (exec (Popup.exchange (Fulfilled response_500)
                        (Fulfilled (JObj [(js "error", JStr (js ""))])))
                     (typed (js "hello")))
     = Some (paragraph 3 error (js "Error: Internal Server Error")).
Proof. repeat split; reflexivity. Qed.

(** C4 as stated fails on [app/static/script.js]: the message of the
    exception of a failed request is part of the text shown. *)
Lemma transport_message_is_shown :
  lastChild (exec (AppStatic.exchange (Rejected failed_to_fetch)
                     (Rejected not_json)) (typed (js "hello")))
  = Some (paragraph 3 error
            (js "Network error or failed to connect to the server. (Failed to fetch)"))
  /\ includes (message failed_to_fetch)
       (js "Network error or failed to connect to the server. (Failed to fetch)")
     = true.
Proof. repeat split; reflexivity. Qed.

(** C9 as stated fails: a reply that is an object with an own property
    [toString] is truthy, yet the exchange ends with an entry of class
    error, since the conversion to the text of the element throws. *)
Lemma unprintable_reply_is_an_error :
  truthy (JObj [(js "toString", integer 1)]) = true
  /\ lastChild (exec (Popup.exchange (Fulfilled response_200)
                        (Fulfilled
                           (JObj [(js "reply",
                                   JObj [(js "toString", integer 1)])])))
                     (typed (js "hello")))
     = Some (paragraph 4 error
               (js "Connection error. Please try again later.")).
Proof. repeat split; reflexivity. Qed.

(** ** Overlapping exchanges *)

Section Frames.
Context {engine : Engine}.

Lemma present_app (h : nat) (p : page) (l : list element) (q : page) :
  chatbox q = chatbox p ++ l ->
  Forall (fun e => handle e <> h) l ->
  present h q = present h p.
Proof.
  intros C F. unfold present. rewrite C, existsb_app.
  replace (existsb (is_node h) l) with false; [apply orb_false_r|].
  symmetry. clear C. induction F as [|e l He _ IH]; simpl; [reflexivity|].
  rewrite IH. unfold is_node. apply Nat.eqb_neq in He. now rewrite He.
Qed.

Lemma removals_app (h : nat) (p q : page) (evs : list event) :
  history q = history p ++ evs ->
  removals h q = removals h p + List.length (filter (is_removal h) evs).
Proof.
  intros H. unfold removals. now rewrite H, filter_app, length_app.
Qed.

Lemma no_mutation_no_removal (h : nat) (evs : list event) :
  existsb is_mutation evs = false -> filter (is_removal h) evs = [].
Proof.
  induction evs as [|ev evs IH]; simpl; [reflexivity|].
  intros H. apply orb_false_iff in H. destruct H as [M H].
  destruct ev; simpl in *; try discriminate; auto.
Qed.

Lemma precedes_app (a b : event) (l k : list event) :
  precedes a b l -> precedes a b (l ++ k).
Proof.
  intros (l1 & l2 & l3 & ->). exists l1, l2, (l3 ++ k).
  now rewrite <- !app_assoc, <- !app_comm_cons, <- app_assoc.
Qed.

Lemma stage_ok_frames (p q : page) (x : stage) :
  frames p q x -> stage_ok p x -> stage_ok q x.
Proof.
  intros (F & I & evs & H). destruct x as [h|s|h e]; cbn [owned stage_ok] in *.
  - inversion F as [|? ? [P R] _]; subst. now rewrite P, R.
  - inversion F as [|? ? [P R] _]; subst. now rewrite P, R.
  - inversion F as [|? ? [P R] _]; subst.
    rewrite P, R. intros (A & B & C & D). repeat split; auto.
    + apply I; auto. right. now left.
    + rewrite H. now apply precedes_app.
Qed.

Lemma frames_trans (p q r : page) (x : stage) :
  frames p q x -> frames q r x -> frames p r x.
Proof.
  intros (F1 & I1 & evs1 & H1) (F2 & I2 & evs2 & H2). repeat split.
  - rewrite Forall_forall in *. intros h Hh.
    destruct (F1 h Hh) as [<- <-]. exact (F2 h Hh).
  - auto.
  - exists (evs1 ++ evs2). now rewrite H2, H1, app_assoc.
Qed.

Lemma frames_quiet (p q : page) (x : stage) : quiet p q -> frames p q x.
Proof.
  intros (C & _ & evs & H & Q). repeat split.
  - apply Forall_forall. intros h _. split.
    + unfold present. now rewrite C.
    + rewrite (removals_app h p q evs H), (no_mutation_no_removal h evs Q).
      simpl. lia.
  - intros e _. now rewrite C.
  - now exists evs.
Qed.

Lemma frames_appending (p : page) (who : sender) (text : jsstring)
    (x : stage) :
  Forall (fun k => k < fresh p) (owned x) ->
  frames p (appending who text p) x.
Proof.
  intros O. repeat split.
  - rewrite Forall_forall in *. intros h Hh. specialize (O h Hh). split.
    + apply (present_app h p [paragraph (fresh p) who text]);
        [reflexivity|].
      constructor; [|constructor]. simpl. lia.
    + rewrite (removals_app h p _ [Appended (paragraph (fresh p) who text)]);
        [|reflexivity].
      simpl. lia.
  - intros e _ He. cbn [appending chatbox]. apply in_or_app. now left.
  - eexists. reflexivity.
Qed.

Lemma frames_sent (thinking : nat -> element) (p : page) (x : stage) :
  handle (thinking (S (fresh p))) = S (fresh p) ->
  Forall (fun k => k < fresh p) (owned x) ->
  frames p (sent thinking p) x.
Proof.
  intros T O. repeat split.
  - rewrite Forall_forall in *. intros h Hh. specialize (O h Hh). split.
    + apply (present_app h p [paragraph (fresh p) user (trim (userInput p));
                              thinking (S (fresh p))]); [reflexivity|].
      constructor; [simpl; lia|]. constructor; [|constructor].
      rewrite T. lia.
    + rewrite (removals_app h p _ (dispatch thinking p)); [|reflexivity].
      simpl. lia.
  - intros e _ He. cbn [sent chatbox]. apply in_or_app. now left.
  - eexists. reflexivity.
Qed.

Lemma present_filter (h k : nat) (l : list element) :
  h <> k ->
  existsb (is_node h) (filter (fun e => negb (is_node k e)) l)
  = existsb (is_node h) l.
Proof.
  intros N. induction l as [|e l IH]; simpl; [reflexivity|].
  destruct (is_node k e) eqn:K; simpl.
  - rewrite IH. unfold is_node in K. apply Nat.eqb_eq in K.
    replace (is_node h e) with false; [reflexivity|].
    symmetry. unfold is_node. apply Nat.eqb_neq. lia.
  - now rewrite IH.
Qed.

Lemma frames_removing (k : nat) (p : page) (x : stage) :
  ~ In k (owned x) ->
  frames p (removing k p) x.
Proof.
  intros N. unfold removing.
  destruct (existsb (is_node k) (chatbox p)) eqn:P.
  - repeat split.
    + apply Forall_forall. intros h Hh.
      assert (h <> k) by (intros ->; auto). split.
      * unfold present. cbn [chatbox]. now apply present_filter.
      * rewrite (removals_app h p _ [Removed k]); [|reflexivity].
        simpl. destruct (Nat.eqb_spec k h); [lia|]. simpl. lia.
    + intros e He Ie. cbn [chatbox]. apply filter_In. split; [assumption|].
      unfold is_node. apply negb_true_iff, Nat.eqb_neq.
      intros E. apply N. now rewrite <- E.
    + eexists. reflexivity.
  - repeat split.
    + apply Forall_forall. auto.
    + auto.
    + exists []. now rewrite app_nil_r.
Qed.

End Frames.

(** *** The invariant of a script that keeps the discipline of the segments *)

Section Discipline.
Context {engine : Engine}.
Variable widget : script.
Variable thinking : nat -> element.

Hypothesis thinking_handle : forall k, handle (thinking k) = k.

Hypothesis submit_spec : forall p,
  on_submit widget p = (Ok None, p)
  \/ on_submit widget p = (Ok (Some (S (fresh p))), sent thinking p).

Hypothesis response_spec : forall h o p,
  (exists s, on_response widget h o p = (Ok (Some s), removing h p)
             /\ thinking_of s = h)
  \/ (exists who text q,
        on_response widget h o p = (Ok None, appending who text q)
        /\ quiet (removing h p) q).

Hypothesis body_spec : forall s j p,
  present (thinking_of s) p = false ->
  exists who text q,
    on_body widget s j p = (Ok tt, appending who text q) /\ quiet p q.

Hypothesis handler_spec : forall m p,
  In m (handlers widget) -> exists q, m p = (Ok tt, q) /\ quiet p q.

Lemma quiet_typing (v : jsstring) (p : page) : quiet p (typing v p).
Proof.
  repeat split; auto. exists []. split; [|reflexivity].
  cbn [typing history]. now rewrite app_nil_r.
Qed.

Lemma quiet_fresh (p q : page) : quiet p q -> fresh p <= fresh q.
Proof. now intros (_ & F & _). Qed.

Lemma quiet_removed (p q : page) (k : nat) :
  quiet p q -> In (Removed k) (history q) -> In (Removed k) (history p).
Proof.
  intros (_ & _ & evs & H & Q) I. rewrite H in I.
  apply in_app_or in I. destruct I as [I|I]; [assumption|].
  exfalso. clear H. induction evs as [|ev evs IH]; [contradiction|].
  simpl in Q. apply orb_false_iff in Q. destruct Q as [Q1 Q2].
  destruct I as [->|I]; [discriminate|auto].
Qed.

Lemma removed_removing (h k : nat) (p : page) :
  In (Removed k) (history (removing h p)) ->
  In (Removed k) (history p) \/ (k = h /\ present h p = true).
Proof.
  unfold removing, present.
  destruct (existsb (is_node h) (chatbox p)); [|auto].
  cbn [history]. intros I. apply in_app_or in I.
  destruct I as [I|[I|[]]]; [auto|]. inversion I. auto.
Qed.

Lemma owned_in_flat_map (y : stage) (xs : list stage) (k : nat) :
  In y xs -> In k (owned y) -> In k (flat_map owned xs).
Proof. intros Y K. apply in_flat_map. now exists y. Qed.

(** A step that leaves the list of exchanges alone. *)
Lemma tidy_quiet (p q : page) (xs : list stage) :
  quiet p q -> tidy (p, xs) -> tidy (q, xs).
Proof.
  intros Q (O & N & R & K). pose proof (quiet_fresh p q Q) as F.
  cbn [fst snd] in *. repeat split; cbn [fst snd].
  - eapply Forall_impl; [|exact O]. simpl. intros; lia.
  - assumption.
  - intros k I. apply (quiet_removed p q k Q) in I. specialize (R k I). lia.
  - eapply Forall_impl; [|exact K]. intros x.
    apply stage_ok_frames. now apply frames_quiet.
Qed.

(** A step that moves one exchange on; [h] is its indicator. *)
Lemma tidy_replace (p q : page) (xs1 xs2 : list stage) (x x' : stage)
    (h : nat) :
  tidy (p, xs1 ++ x :: xs2) ->
  owned x = [h] ->
  fresh p <= fresh q ->
  (forall y, ~ In h (owned y) -> Forall (fun k => k < fresh p) (owned y) ->
             frames p q y) ->
  (forall k, In (Removed k) (history q) -> k < fresh q) ->
  owned x' = [h] \/ (exists k, owned x' = [h; k] /\ fresh p <= k < fresh q) ->
  stage_ok q x' ->
  tidy (q, xs1 ++ x' :: xs2).
Proof.
  intros (O & N & R & K) X F Fr Rq X' Kx'. cbn [fst snd] in *.
  rewrite flat_map_app in O, N. cbn [flat_map] in O, N. rewrite X in O, N.
  cbn [app] in O, N.
  apply Forall_app in O. destruct O as [OA OB].
  inversion OB as [|? ? Oh OB']; subst.
  pose proof (NoDup_remove_2 _ _ _ N) as Nh.
  apply Forall_app in K. destruct K as [K1 K2].
  inversion K2 as [|? ? _ K2']; subst.
  assert (Others : forall y, In y xs1 \/ In y xs2 -> stage_ok p y ->
                             stage_ok q y).
  { intros y Y. apply stage_ok_frames. apply Fr.
    - intros I. apply Nh. apply in_or_app.
      destruct Y as [Y|Y]; [left|right];
        now apply (owned_in_flat_map y).
    - apply Forall_forall. intros k I.
      destruct Y as [Y|Y].
      + rewrite Forall_forall in OA. apply OA.
        now apply (owned_in_flat_map y).
      + rewrite Forall_forall in OB'. apply OB'.
        now apply (owned_in_flat_map y). }
  repeat split; cbn [fst snd].
  - rewrite flat_map_app. cbn [flat_map]. apply Forall_app. split.
    + eapply Forall_impl; [|exact OA]. simpl. intros; lia.
    + apply Forall_app. split.
      * destruct X' as [->|(k & -> & Hk)].
        -- constructor; [lia|constructor].
        -- constructor; [lia|]. constructor; [lia|constructor].
      * eapply Forall_impl; [|exact OB']. simpl. intros; lia.
  - rewrite flat_map_app. cbn [flat_map].
    destruct X' as [->|(k & -> & Hk)]; cbn [app]; [assumption|].
    apply (Permutation_NoDup
             (l := k :: (flat_map owned xs1 ++ [h]) ++ flat_map owned xs2)).
    + rewrite (Permutation_middle (flat_map owned xs1 ++ [h])
                 (flat_map owned xs2) k).
      rewrite <- app_assoc. reflexivity.
    + rewrite <- app_assoc. cbn [app]. constructor; [|assumption].
      intros I. apply in_app_or in I. destruct I as [I|[I|I]].
      * rewrite Forall_forall in OA. specialize (OA k I). lia.
      * lia.
      * rewrite Forall_forall in OB'. specialize (OB' k I). lia.
  - assumption.
  - apply Forall_app. split.
    + rewrite Forall_forall in *. intros y Y. apply Others; auto.
    + constructor; [assumption|].
      rewrite Forall_forall in *. intros y Y. apply Others; auto.
Qed.

Lemma tidy_at (p : page) (xs1 xs2 : list stage) (x : stage) (h : nat) :
  tidy (p, xs1 ++ x :: xs2) ->
  owned x = [h] ->
  h < fresh p /\ stage_ok p x.
Proof.
  intros (O & _ & _ & K) X. cbn [fst snd] in *. split.
  - rewrite Forall_forall in O. apply O. rewrite flat_map_app.
    apply in_or_app. right. cbn [flat_map]. rewrite X. now left.
  - apply Forall_app in K. destruct K as [_ K]. now inversion K.
Qed.

Lemma removals_none (h : nat) (p : page) :
  (forall k, In (Removed k) (history p) -> k < fresh p) ->
  fresh p <= h ->
  removals h p = 0.
Proof.
  intros R F. unfold removals.
  destruct (filter (is_removal h) (history p)) as [|ev l] eqn:E;
    [reflexivity|].
  assert (I : In ev (filter (is_removal h) (history p)))
    by (rewrite E; now left).
  apply filter_In in I. destruct I as [I M].
  destruct ev; try discriminate M. simpl in M. apply Nat.eqb_eq in M.
  subst. specialize (R h I). lia.
Qed.

Lemma removals_some (h : nat) (p : page) :
  removals h p <> 0 -> In (Removed h) (history p).
Proof.
  unfold removals. intros R.
  destruct (filter (is_removal h) (history p)) as [|ev l] eqn:E;
    [now destruct R|].
  assert (I : In ev (filter (is_removal h) (history p)))
    by (rewrite E; now left).
  apply filter_In in I. destruct I as [I M].
  destruct ev; try discriminate M. simpl in M. apply Nat.eqb_eq in M.
  now subst.
Qed.

Lemma existsb_filter_negb {A} (f : A -> bool) (l : list A) :
  existsb f (filter (fun a => negb (f a)) l) = false.
Proof.
  induction l as [|a l IH]; simpl; [reflexivity|].
  destruct (f a) eqn:E; simpl; [exact IH|now rewrite E].
Qed.

Lemma present_removing (h : nat) (p : page) :
  present h (removing h p) = false.
Proof.
  unfold removing, present.
  destruct (existsb (is_node h) (chatbox p)) eqn:P; [|assumption].
  cbn [chatbox]. apply existsb_filter_negb.
Qed.

Lemma removals_removing (h : nat) (p : page) :
  removals h (removing h p)
  = if present h p then S (removals h p) else removals h p.
Proof.
  unfold removing, present.
  destruct (existsb (is_node h) (chatbox p)); [|reflexivity].
  rewrite (removals_app h p _ [Removed h]); [|reflexivity].
  simpl. rewrite Nat.eqb_refl. simpl. lia.
Qed.

Lemma lastChild_appending (who : sender) (text : jsstring) (q : page) :
  lastChild (appending who text q) = Some (paragraph (fresh q) who text).
Proof.
  unfold lastChild, appending. cbn [chatbox]. now rewrite rev_unit.
Qed.

(** The segment that ends an exchange. *)
Lemma tidy_ending (p q : page) (xs1 xs2 : list stage) (x : stage) (h : nat)
    (who : sender) (text : jsstring) :
  tidy (p, xs1 ++ x :: xs2) ->
  owned x = [h] ->
  removals h (removing h p) = 1 ->
  quiet (removing h p) q ->
  tidy (appending who text q,
        xs1 ++ Rendered h (paragraph (fresh q) who text) :: xs2).
Proof.
  intros T X R1 Q.
  destruct (tidy_at p xs1 xs2 x h T X) as [Hh _].
  pose proof (quiet_fresh _ _ Q) as F. rewrite fresh_removing in F.
  apply (tidy_replace p _ xs1 xs2 x _ h T X).
  - cbn [appending fresh]. lia.
  - intros y Ny Oy.
    apply (frames_trans p (removing h p)); [now apply frames_removing|].
    apply (frames_trans _ q); [now apply frames_quiet|].
    apply frames_appending.
    eapply Forall_impl; [|exact Oy]. simpl. intros; lia.
  - cbn [appending history fresh]. intros k I.
    apply in_app_or in I. destruct I as [I|[I|[]]]; [|discriminate].
    apply (quiet_removed _ _ k Q) in I.
    apply removed_removing in I. destruct I as [I|[-> _]]; [|lia].
    destruct T as (_ & _ & R & _). specialize (R k I). cbn [fst] in R. lia.
  - right. exists (fresh q). split; [reflexivity|].
    cbn [appending fresh]. lia.
  - destruct Q as (C & _ & evs & H & M). cbn [stage_ok]. repeat split.
    + rewrite (present_app h (removing h p) [paragraph (fresh q) who text]
                 (appending who text q)).
      * apply present_removing.
      * cbn [appending chatbox]. now rewrite C.
      * constructor; [|constructor]. simpl. lia.
    + rewrite (removals_app h (removing h p) _
                 (evs ++ [Appended (paragraph (fresh q) who text)])).
      * rewrite filter_app, (no_mutation_no_removal h evs M), R1.
        reflexivity.
      * cbn [appending history]. now rewrite H, app_assoc.
    + cbn [appending chatbox]. apply in_or_app. right. now left.
    + assert (I : In (Removed h) (history (removing h p))).
      { apply removals_some. rewrite R1. discriminate. }
      apply in_split in I. destruct I as (l1 & l2 & I).
      exists l1, (l2 ++ evs), []. cbn [appending history].
      rewrite H, I. rewrite <- !app_assoc. reflexivity.
Qed.

Lemma tidy_submit (p : page) (xs : list stage) :
  tidy (p, xs) ->
  tidy (sent thinking p, xs ++ [InFlight (S (fresh p))]).
Proof.
  intros (O & N & R & K). cbn [fst snd] in *. repeat split; cbn [fst snd].
  - rewrite flat_map_app. apply Forall_app. split.
    + eapply Forall_impl; [|exact O]. cbn [sent fresh]. intros; lia.
    + cbn [flat_map owned app sent fresh]. constructor; [lia|constructor].
  - rewrite flat_map_app. cbn [flat_map owned app].
    apply (Permutation_NoDup (Permutation_cons_append _ _)).
    constructor; [|assumption].
    intros I. rewrite Forall_forall in O. specialize (O _ I). lia.
  - cbn [sent history fresh]. intros k I. apply in_app_or in I.
    destruct I as [I|I].
    + specialize (R k I). lia.
    + unfold dispatch in I. simpl in I.
      destruct I as [I|[I|[I|[I|[]]]]]; discriminate.
  - apply Forall_app. split.
    + rewrite Forall_forall in *. intros x X.
      apply (stage_ok_frames p); [|auto].
      apply frames_sent; [apply thinking_handle|].
      apply Forall_forall. intros k I. apply O.
      now apply (owned_in_flat_map x).
    + constructor; [|constructor]. cbn [stage_ok]. split.
      * unfold present. cbn [sent chatbox]. rewrite existsb_app.
        cbn [existsb]. unfold is_node at 3.
        rewrite thinking_handle, Nat.eqb_refl.
        now rewrite !orb_true_r.
      * rewrite (removals_app (S (fresh p)) p _ (dispatch thinking p));
          [|reflexivity].
        rewrite (removals_none (S (fresh p)) p R); [reflexivity|lia].
Qed.

Lemma tidy_response (p : page) (xs1 xs2 : list stage) (h : nat)
    (s : suspension) :
  tidy (p, xs1 ++ InFlight h :: xs2) ->
  thinking_of s = h ->
  tidy (removing h p, xs1 ++ Responded s :: xs2).
Proof.
  intros T E.
  destruct (tidy_at p xs1 xs2 (InFlight h) h T eq_refl) as [Hh [P R0]].
  apply (tidy_replace p _ xs1 xs2 (InFlight h) _ h T eq_refl).
  - rewrite fresh_removing. lia.
  - intros y Ny _. now apply frames_removing.
  - rewrite fresh_removing. intros k I. apply removed_removing in I.
    destruct I as [I|[-> _]]; [|assumption].
    destruct T as (_ & _ & R & _). exact (R k I).
  - left. cbn [owned]. now rewrite E.
  - cbn [stage_ok]. rewrite E. split; [apply present_removing|].
    now rewrite removals_removing, P, R0.
Qed.

Lemma tidy_step (w w' : world) : tidy w -> step widget w w' -> tidy w'.
Proof.
  intros T St. destruct St as
    [p xs v | p xs m p' I Hm | p xs p' Hs | p xs h p' Hs
    | p xs1 h xs2 o s p' Hr | p xs1 h xs2 o p' e Hr L
    | p xs1 s xs2 j p' e Hb L].
  - apply (tidy_quiet p); [apply quiet_typing|assumption].
  - destruct (handler_spec m p I) as (q & Hq & Q).
    rewrite Hq in Hm. inversion Hm; subst.
    now apply (tidy_quiet p).
  - destruct (submit_spec p) as [H|H]; rewrite H in Hs;
      inversion Hs; subst; assumption.
  - destruct (submit_spec p) as [H|H]; rewrite H in Hs;
      inversion Hs; subst. now apply tidy_submit.
  - destruct (response_spec h o p) as [(s' & H & E)|(who & text & q & H & Q)];
      rewrite H in Hr; inversion Hr; subst.
    now apply tidy_response.
  - destruct (response_spec h o p) as [(s' & H & E)|(who & text & q & H & Q)];
      rewrite H in Hr; inversion Hr; subst.
    rewrite lastChild_appending in L. inversion L; subst.
    destruct (tidy_at p xs1 xs2 (InFlight h) h T eq_refl) as [_ [P R0]].
    apply (tidy_ending p q xs1 xs2 (InFlight h) h who text T eq_refl);
      [|assumption].
    now rewrite removals_removing, P, R0.
  - destruct (tidy_at p xs1 xs2 (Responded s) _ T eq_refl) as [_ [P R1]].
    destruct (body_spec s j p P) as (who & text & q & H & Q).
    rewrite H in Hb. inversion Hb; subst.
    rewrite lastChild_appending in L. inversion L; subst.
    assert (Same : removing (thinking_of s) p = p)
      by now apply removing_absent.
    apply (tidy_ending p q xs1 xs2 (Responded s) _ who text T eq_refl).
    + now rewrite Same.
    + now rewrite Same.
Qed.

Lemma tidy_reachable (w : world) : reachable widget w -> tidy w.
Proof.
  induction 1 as [p _ H|w w' _ IH St].
  - repeat split; cbn [fst snd flat_map]; try constructor.
    rewrite H. intros k [].
  - now apply (tidy_step w).
Qed.

(** The nodes of the chat box stay older than the next node. *)
Lemma older_appended (p q : page) (l : list element) :
  older_nodes p = true ->
  fresh p <= fresh q ->
  incl (chatbox q) (chatbox p ++ l) ->
  Forall (fun e => handle e < fresh q) l ->
  older_nodes q = true.
Proof.
  unfold older_nodes. intros O F I L.
  rewrite forallb_forall in *. intros e E. apply Nat.ltb_lt.
  apply I, in_app_or in E. destruct E as [E|E].
  - specialize (O e E). apply Nat.ltb_lt in O. lia.
  - rewrite Forall_forall in L. now apply L.
Qed.

Lemma older_quiet (p q : page) :
  quiet p q -> older_nodes p = true -> older_nodes q = true.
Proof.
  intros (C & F & _) O. apply (older_appended p q [] O F); [|constructor].
  rewrite C, app_nil_r. apply incl_refl.
Qed.

Lemma older_removing (h : nat) (p : page) :
  older_nodes p = true -> older_nodes (removing h p) = true.
Proof.
  intros O. apply (older_appended p _ [] O); [|rewrite app_nil_r|constructor].
  - now rewrite fresh_removing.
  - unfold removing.
    destruct (existsb (is_node h) (chatbox p)); [|apply incl_refl].
    cbn [chatbox]. apply incl_filter.
Qed.

Lemma older_appending (who : sender) (text : jsstring) (p : page) :
  older_nodes p = true -> older_nodes (appending who text p) = true.
Proof.
  intros O.
  apply (older_appended p _ [paragraph (fresh p) who text] O);
    cbn [appending fresh chatbox].
  - lia.
  - apply incl_refl.
  - constructor; [|constructor]. cbn [paragraph handle]. lia.
Qed.

Lemma older_step (w w' : world) :
  tidy w ->
  step widget w w' ->
  older_nodes (fst w) = true ->
  older_nodes (fst w') = true.
Proof.
  intros T St O. destruct St as
    [p xs v | p xs m p' I Hm | p xs p' Hs | p xs h p' Hs
    | p xs1 h xs2 o s p' Hr | p xs1 h xs2 o p' e Hr L
    | p xs1 s xs2 j p' e Hb L]; cbn [fst] in *.
  - exact O.
  - destruct (handler_spec m p I) as (q & Hq & Q).
    rewrite Hq in Hm. inversion Hm; subst. now apply (older_quiet p).
  - destruct (submit_spec p) as [H|H]; rewrite H in Hs;
      inversion Hs; subst; assumption.
  - destruct (submit_spec p) as [H|H]; rewrite H in Hs;
      inversion Hs; subst.
    apply (older_appended p _ [paragraph (fresh p) user (trim (userInput p));
                               thinking (S (fresh p))] O);
      cbn [sent fresh chatbox].
    + lia.
    + apply incl_refl.
    + constructor; [cbn; lia|]. constructor; [|constructor].
      rewrite thinking_handle. lia.
  - destruct (response_spec h o p) as [(s' & H & E)|(who & text & q & H & Q)];
      rewrite H in Hr; inversion Hr; subst.
    now apply older_removing.
  - destruct (response_spec h o p) as [(s' & H & E)|(who & text & q & H & Q)];
      rewrite H in Hr; inversion Hr; subst.
    apply older_appending, (older_quiet _ _ Q). now apply older_removing.
  - destruct (tidy_at p xs1 xs2 (Responded s) _ T eq_refl) as [_ [P _]].
    destruct (body_spec s j p P) as (who & text & q & H & Q).
    rewrite H in Hb. inversion Hb; subst.
    now apply older_appending, (older_quiet _ _ Q).
Qed.

Lemma older_reachable (w : world) :
  reachable widget w -> older_nodes (fst w) = true.
Proof.
  induction 1 as [p O _|w w' Re IH St]; [exact O|].
  apply (older_step w w'); auto. now apply tidy_reachable.
Qed.

(** Every exchange of a reachable world stands as its stage says, and can
    settle whatever the outcome. *)
Lemma disciplined (w : world) :
  reachable widget w ->
  Forall (stage_ok (fst w)) (snd w) /\ Forall (settles widget (fst w)) (snd w).
Proof.
  intros Re. destruct (tidy_reachable w Re) as (_ & _ & _ & K).
  split; [assumption|].
  eapply Forall_impl; [|exact K]. intros x Kx.
  destruct x as [h|s|h e]; cbn [settles stage_ok] in *.
  - intros o.
    destruct (response_spec h o (fst w))
      as [(s & H & _)|(who & text & q & H & _)].
    + exists (Some s), (removing h (fst w)). split; [assumption|].
      discriminate.
    + exists None, (appending who text q). split; [assumption|].
      intros _. eexists. apply lastChild_appending.
  - intros j. destruct Kx as [P _].
    destruct (body_spec s j (fst w) P) as (who & text & q & H & _).
    exists (appending who text q), (paragraph (fresh q) who text).
    split; [assumption|apply lastChild_appending].
  - exact I.
Qed.

End Discipline.

(** *** The node an exchange holds is its indicator *)

Section Indicators.
Context {engine : Engine}.
Variable widget : script.
Variable thinking : nat -> element.

Hypothesis thinking_handle : forall k, handle (thinking k) = k.

Hypothesis submit_spec : forall p,
  on_submit widget p = (Ok None, p)
  \/ on_submit widget p = (Ok (Some (S (fresh p))), sent thinking p).

Hypothesis response_spec : forall h o p,
  (exists s, on_response widget h o p = (Ok (Some s), removing h p)
             /\ thinking_of s = h)
  \/ (exists who text q,
        on_response widget h o p = (Ok None, appending who text q)
        /\ quiet (removing h p) q).

Hypothesis body_spec : forall s j p,
  present (thinking_of s) p = false ->
  exists who text q,
    on_body widget s j p = (Ok tt, appending who text q) /\ quiet p q.

Hypothesis handler_spec : forall m p,
  In m (handlers widget) -> exists q, m p = (Ok tt, q) /\ quiet p q.

Lemma filter_none {A} (f : A -> bool) (l : list A) :
  (forall a, In a l -> f a = false) -> filter f l = [].
Proof.
  induction l as [|a l IH]; intros H; simpl; [reflexivity|].
  rewrite (H a (or_introl eq_refl)). apply IH. intros b I. apply H. now right.
Qed.

Lemma filter_one {A} (f : A -> bool) (l : list A) (a b : A) :
  filter f l = [a] -> In b l -> f b = true -> b = a.
Proof.
  intros E I F.
  assert (J : In b (filter f l)) by (apply filter_In; now split).
  rewrite E in J. destruct J as [J|[]]. now symmetry.
Qed.

Lemma no_mutation_no_append (k : nat) (evs : list event) :
  existsb is_mutation evs = false -> filter (is_append_of k) evs = [].
Proof.
  intros M. apply filter_none. intros ev I.
  destruct ev; try reflexivity.
  assert (T : existsb is_mutation evs = true)
    by (apply existsb_exists; eexists; split; [exact I|reflexivity]).
  rewrite M in T. discriminate T.
Qed.

Lemma precedes_later (a b : event) (l evs : list event) :
  precedes a b l -> precedes a b (l ++ evs).
Proof.
  intros (l1 & l2 & l3 & ->). exists l1, l2, (l3 ++ evs).
  rewrite <- !app_assoc. cbn [app]. rewrite <- !app_assoc. reflexivity.
Qed.

Lemma kept_refl (k : nat) (p : page) : kept k p p.
Proof.
  split; [reflexivity|]. exists []. now rewrite app_nil_r.
Qed.

Lemma kept_trans (k : nat) (p q r : page) :
  kept k p q -> kept k q r -> kept k p r.
Proof.
  intros (C1 & e1 & H1 & A1) (C2 & e2 & H2 & A2). split.
  - now rewrite C2.
  - exists (e1 ++ e2). split.
    + now rewrite H2, H1, app_assoc.
    + now rewrite filter_app, A1, A2.
Qed.

Lemma kept_typing (k : nat) (v : jsstring) (p : page) :
  kept k p (typing v p).
Proof.
  split; [reflexivity|]. exists []. cbn [typing history].
  now rewrite app_nil_r.
Qed.

Lemma kept_quiet (k : nat) (p q : page) : quiet p q -> kept k p q.
Proof.
  intros (C & _ & evs & H & M). split; [now rewrite C|].
  exists evs. split; [assumption|now apply no_mutation_no_append].
Qed.

Lemma filter_apart (h k : nat) (l : list element) :
  k <> h ->
  filter (is_node k) (filter (fun e => negb (is_node h e)) l)
  = filter (is_node k) l.
Proof.
  intros N. unfold is_node.
  induction l as [|e l IH]; simpl; [reflexivity|].
  destruct (handle e =? h) eqn:A; simpl.
  - apply Nat.eqb_eq in A.
    assert (B : (handle e =? k) = false) by (apply Nat.eqb_neq; lia).
    now rewrite B.
  - destruct (handle e =? k); [f_equal|]; exact IH.
Qed.

Lemma kept_removing (h k : nat) (p : page) :
  k <> h -> kept k p (removing h p).
Proof.
  intros N. unfold removing.
  destruct (existsb (is_node h) (chatbox p)); [|apply kept_refl].
  split; cbn [chatbox history].
  - now apply filter_apart.
  - now exists [Removed h].
Qed.

Lemma kept_appending (who : sender) (text : jsstring) (k : nat) (q : page) :
  k < fresh q -> kept k q (appending who text q).
Proof.
  intros F.
  assert (B : (fresh q =? k) = false) by (apply Nat.eqb_neq; lia).
  split; cbn [appending chatbox history].
  - rewrite filter_app. cbn [filter]. unfold is_node at 2.
    cbn [paragraph handle]. rewrite B. now rewrite app_nil_r.
  - eexists. split; [reflexivity|].
    cbn [filter is_append_of paragraph handle]. now rewrite B.
Qed.

Lemma kept_sent (k : nat) (p : page) :
  k < fresh p -> kept k p (sent thinking p).
Proof.
  intros F.
  assert (B : (fresh p =? k) = false) by (apply Nat.eqb_neq; lia).
  assert (C : (S (fresh p) =? k) = false) by (apply Nat.eqb_neq; lia).
  split; cbn [sent chatbox history].
  - rewrite filter_app. cbn [filter]. unfold is_node.
    rewrite thinking_handle. cbn [paragraph handle]. rewrite B, C.
    now rewrite app_nil_r.
  - eexists. split; [reflexivity|]. unfold dispatch.
    cbn [filter is_append_of]. rewrite thinking_handle.
    cbn [paragraph handle]. now rewrite B, C.
Qed.

(** An exchange whose node was left alone still holds its indicator. *)
Lemma indicator_kept (p q : page) (x : stage) :
  kept (thinking_at x) p q ->
  indicator_ok thinking p x -> indicator_ok thinking q x.
Proof.
  intros (C & evs & H & A) [E1 E2]. split.
  - now rewrite H, filter_app, A, app_nil_r.
  - destruct x as [h|s|h e]; cbn [thinking_at] in *.
    + now rewrite C.
    + rewrite H. now apply precedes_later.
    + rewrite H. now apply precedes_later.
Qed.

Lemma appended_later (p q : page) (evs : list event) :
  appended_older p ->
  fresh p <= fresh q ->
  history q = history p ++ evs ->
  (forall e, In (Appended e) evs -> handle e < fresh q) ->
  appended_older q.
Proof.
  intros O F H L e I. rewrite H in I. apply in_app_or in I.
  destruct I as [I|I]; [|now apply L].
  specialize (O e I). lia.
Qed.

Lemma appended_quiet (p q : page) :
  quiet p q -> appended_older p -> appended_older q.
Proof.
  intros (_ & F & evs & H & M) O.
  apply (appended_later p q evs O F H). intros e I.
  assert (T : existsb is_mutation evs = true)
    by (apply existsb_exists; eexists; split; [exact I|reflexivity]).
  rewrite M in T. discriminate T.
Qed.

Lemma appended_removing (h : nat) (p : page) :
  appended_older p -> appended_older (removing h p).
Proof.
  intros O. unfold removing.
  destruct (existsb (is_node h) (chatbox p)); [|assumption].
  apply (appended_later p _ [Removed h] O); cbn [fresh history]; auto.
  intros e [I|[]]. discriminate I.
Qed.

Lemma appended_appending (who : sender) (text : jsstring) (p : page) :
  appended_older p -> appended_older (appending who text p).
Proof.
  intros O.
  apply (appended_later p _ [Appended (paragraph (fresh p) who text)] O);
    cbn [appending fresh history]; auto.
  intros e [I|[]]. inversion I. cbn [paragraph handle]. lia.
Qed.

Lemma appended_sent (p : page) :
  appended_older p -> appended_older (sent thinking p).
Proof.
  intros O.
  apply (appended_later p _ (dispatch thinking p) O);
    cbn [sent fresh history]; auto.
  unfold dispatch. intros e [I|[I|[I|[I|[]]]]]; try discriminate I.
  - inversion I. cbn [paragraph handle]. lia.
  - inversion I. rewrite thinking_handle. lia.
Qed.

(** The indicator of a message that has just been sent. *)
Lemma indicator_sent (p : page) :
  older_nodes p = true ->
  appended_older p ->
  indicator_ok thinking (sent thinking p) (InFlight (S (fresh p))).
Proof.
  intros N O.
  assert (B : (fresh p =? S (fresh p)) = false)
    by (apply Nat.eqb_neq; lia).
  split; cbn [thinking_at sent chatbox history]; rewrite filter_app.
  - rewrite (filter_none (is_append_of (S (fresh p))) (history p)).
    + unfold dispatch. cbn [filter is_append_of app].
      rewrite thinking_handle. cbn [paragraph handle].
      now rewrite B, Nat.eqb_refl.
    + intros ev I. destruct ev as [e| | | | |]; try reflexivity.
      specialize (O e I). cbn [is_append_of]. apply Nat.eqb_neq. lia.
  - rewrite (filter_none (is_node (S (fresh p))) (chatbox p)).
    + cbn [filter app]. unfold is_node. rewrite thinking_handle.
      cbn [paragraph handle]. now rewrite B, Nat.eqb_refl.
    + unfold older_nodes in N. rewrite forallb_forall in N.
      intros e I. specialize (N e I). apply Nat.ltb_lt in N.
      unfold is_node. apply Nat.eqb_neq. lia.
Qed.

(** The indicator of a request that has just settled. *)
Lemma indicator_removed (p : page) (h : nat) :
  present h p = true ->
  indicator_ok thinking p (InFlight h) ->
  filter (is_append_of h) (history (removing h p)) = [Appended (thinking h)]
  /\ precedes (Appended (thinking h)) (Removed h) (history (removing h p)).
Proof.
  unfold present, removing. intros P [E1 _]. cbn [thinking_at] in E1.
  rewrite P. cbn [history]. split.
  - rewrite filter_app, E1. reflexivity.
  - assert (I : In (Appended (thinking h))
                   (filter (is_append_of h) (history p)))
      by (rewrite E1; now left).
    apply filter_In in I. destruct I as [I _].
    apply in_split in I. destruct I as (l1 & l2 & ->).
    exists l1, l2, []. now rewrite <- app_assoc.
Qed.

Lemma thinking_owned (x : stage) : In (thinking_at x) (owned x).
Proof. destruct x; now left. Qed.

Lemma indicators_kept (p q : page) (xs : list stage) :
  tidy (p, xs) ->
  (forall k, k < fresh p -> kept k p q) ->
  Forall (indicator_ok thinking p) xs ->
  Forall (indicator_ok thinking q) xs.
Proof.
  intros (O & _) K. cbn [fst snd] in O. rewrite !Forall_forall in *.
  intros A x X. apply (indicator_kept p); [|now apply A].
  apply K, O. apply (owned_in_flat_map x); [assumption|].
  apply thinking_owned.
Qed.

Lemma indicators_replace (p q : page) (xs1 xs2 : list stage)
    (x x' : stage) (h : nat) :
  tidy (p, xs1 ++ x :: xs2) ->
  owned x = [h] ->
  (forall k, k <> h -> k < fresh p -> kept k p q) ->
  indicator_ok thinking q x' ->
  Forall (indicator_ok thinking p) (xs1 ++ x :: xs2) ->
  Forall (indicator_ok thinking q) (xs1 ++ x' :: xs2).
Proof.
  intros (O & N & _) X K Kx' A. cbn [fst snd] in *.
  rewrite flat_map_app in O, N. cbn [flat_map] in O, N. rewrite X in O, N.
  cbn [app] in O, N.
  apply Forall_app in O. destruct O as [OA OB].
  inversion OB as [|? ? Oh OB']; subst.
  pose proof (NoDup_remove_2 _ _ _ N) as Nh.
  apply Forall_app in A. destruct A as [A1 A2].
  inversion A2 as [|? ? _ A2']; subst.
  assert (Others : forall y, In y xs1 \/ In y xs2 ->
                             indicator_ok thinking p y ->
                             indicator_ok thinking q y).
  { intros y Y. apply indicator_kept. apply K.
    - intros E. apply Nh. rewrite <- E. apply in_or_app.
      destruct Y as [Y|Y]; [left|right];
        apply (owned_in_flat_map y); auto using thinking_owned.
    - destruct Y as [Y|Y].
      + rewrite Forall_forall in OA. apply OA.
        apply (owned_in_flat_map y); auto using thinking_owned.
      + rewrite Forall_forall in OB'. apply OB'.
        apply (owned_in_flat_map y); auto using thinking_owned. }
  apply Forall_app. split.
  - rewrite Forall_forall in *. intros y Y. apply Others; auto.
  - constructor; [assumption|].
    rewrite Forall_forall in *. intros y Y. apply Others; auto.
Qed.

Lemma indicators_at (p : page) (xs1 xs2 : list stage) (x : stage) :
  Forall (indicator_ok thinking p) (xs1 ++ x :: xs2) ->
  indicator_ok thinking p x.
Proof.
  intros A. apply Forall_app in A. destruct A as [_ A]. now inversion A.
Qed.

(** The segment that ends an exchange leaves the other indicators alone. *)
Lemma kept_ending (p q : page) (h k : nat) (who : sender)
    (text : jsstring) :
  quiet (removing h p) q ->
  k <> h -> k < fresh p ->
  kept k p (appending who text q).
Proof.
  intros Q N F. pose proof (quiet_fresh _ _ Q) as G.
  rewrite fresh_removing in G.
  apply (kept_trans k p (removing h p)); [now apply kept_removing|].
  apply (kept_trans k _ q); [now apply kept_quiet|].
  apply kept_appending. lia.
Qed.

Lemma shows_step (w w' : world) :
  tidy w ->
  older_nodes (fst w) = true ->
  step widget w w' ->
  appended_older (fst w)
  /\ Forall (indicator_ok thinking (fst w)) (snd w) ->
  appended_older (fst w')
  /\ Forall (indicator_ok thinking (fst w')) (snd w').
Proof.
  intros T Old St [O A]. destruct St as
    [p xs v | p xs m p' I Hm | p xs p' Hs | p xs h p' Hs
    | p xs1 h xs2 o s p' Hr | p xs1 h xs2 o p' e Hr L
    | p xs1 s xs2 j p' e Hb L]; cbn [fst snd] in *.
  - split; [exact O|].
    apply (indicators_kept p _ xs T); [|assumption].
    intros k _. apply kept_typing.
  - destruct (handler_spec m p I) as (q & Hq & Q).
    rewrite Hq in Hm. inversion Hm; subst.
    split; [now apply (appended_quiet p)|].
    apply (indicators_kept p _ xs T); [|assumption].
    intros k _. now apply kept_quiet.
  - destruct (submit_spec p) as [H|H]; rewrite H in Hs;
      inversion Hs; subst; auto.
  - destruct (submit_spec p) as [H|H]; rewrite H in Hs;
      inversion Hs; subst.
    split; [now apply appended_sent|].
    apply Forall_app. split.
    + apply (indicators_kept p _ xs T); [|assumption].
      intros k. apply kept_sent.
    + constructor; [|constructor]. now apply indicator_sent.
  - destruct (response_spec h o p) as [(s' & H & E)|(who & text & q & H & Q)];
      rewrite H in Hr; inversion Hr; subst.
    split; [now apply appended_removing|].
    destruct (tidy_at p xs1 xs2 (InFlight (thinking_of s)) _ T eq_refl)
      as [_ [P _]].
    apply (indicators_replace p _ xs1 xs2 (InFlight (thinking_of s)) _
             (thinking_of s) T eq_refl); [| |assumption].
    + intros k N _. now apply kept_removing.
    + apply (indicator_removed p (thinking_of s) P).
      exact (indicators_at p xs1 xs2 _ A).
  - destruct (response_spec h o p) as [(s' & H & E)|(who & text & q & H & Q)];
      rewrite H in Hr; inversion Hr; subst.
    split.
    { apply appended_appending, (appended_quiet _ _ Q).
      now apply appended_removing. }
    destruct (tidy_at p xs1 xs2 (InFlight h) h T eq_refl) as [Hh [P _]].
    pose proof (quiet_fresh _ _ Q) as G. rewrite fresh_removing in G.
    apply (indicators_replace p _ xs1 xs2 (InFlight h) _ h T eq_refl);
      [| |assumption].
    + intros k N F. now apply (kept_ending p q h).
    + apply (indicator_kept (removing h p)).
      * cbn [thinking_at].
        apply (kept_trans h _ q); [now apply kept_quiet|].
        apply kept_appending. lia.
      * apply (indicator_removed p h P).
        exact (indicators_at p xs1 xs2 _ A).
  - destruct (tidy_at p xs1 xs2 (Responded s) _ T eq_refl) as [Hh [P _]].
    destruct (body_spec s j p P) as (who & text & q & H & Q).
    rewrite H in Hb. inversion Hb; subst.
    pose proof (quiet_fresh _ _ Q) as G.
    split; [now apply appended_appending, (appended_quiet _ _ Q)|].
    assert (Kp : forall k, k < fresh p -> kept k p (appending who text q)).
    { intros k F. apply (kept_trans k _ q); [now apply kept_quiet|].
      apply kept_appending. lia. }
    apply (indicators_replace p _ xs1 xs2 (Responded s) _ (thinking_of s)
             T eq_refl); [| |assumption].
    + intros k _ F. now apply Kp.
    + apply (indicator_kept p); [now apply Kp|].
      exact (indicators_at p xs1 xs2 _ A).
Qed.

Lemma shows_reachable (w : world) :
  reachable widget w ->
  appended_older (fst w)
  /\ Forall (indicator_ok thinking (fst w)) (snd w).
Proof.
  induction 1 as [p _ H|w w' Re IH St].
  - split; [|constructor]. intros e I. cbn [fst] in I.
    rewrite H in I. destruct I.
  - apply (shows_step w w'); auto.
    + now apply (tidy_reachable widget thinking).
    + now apply (older_reachable widget thinking).
Qed.

(** A stage that stands as [stage_ok] says and holds its indicator stands
    as [stage_shows] says. *)
Lemma shows_stage (p : page) (x : stage) :
  stage_ok p x -> indicator_ok thinking p x -> stage_shows thinking p x.
Proof.
  assert (Gone : forall h, present h p = false ->
                           ~ In (thinking h) (chatbox p)).
  { intros h P I. unfold present in P.
    assert (T : existsb (is_node h) (chatbox p) = true).
    { apply existsb_exists. exists (thinking h). split; [assumption|].
      unfold is_node. rewrite thinking_handle. apply Nat.eqb_refl. }
    rewrite P in T. discriminate T. }
  destruct x as [h|s|h e]; cbn [stage_ok stage_shows];
    intros K [E1 E2]; cbn [thinking_at] in *.
  - destruct K as [P R]. auto.
  - destruct K as [P R]. repeat split; auto.
  - destruct K as (P & R & I & B). repeat split; auto.
Qed.

(** Every exchange of a reachable world holds its indicator as its stage
    says, and can settle whatever the outcome. *)
Lemma shown (w : world) :
  reachable widget w ->
  Forall (stage_shows thinking (fst w)) (snd w)
  /\ Forall (settles widget (fst w)) (snd w).
Proof.
  intros Re.
  destruct (disciplined widget thinking thinking_handle submit_spec
              response_spec body_spec handler_spec w Re) as [K Se].
  destruct (shows_reachable w Re) as [_ A].
  split; [|assumption].
  rewrite Forall_forall in *. intros x X.
  apply shows_stage; auto.
Qed.

End Indicators.

(** *** Both scripts keep the discipline *)

Section Scripts.
Context {engine : Engine}.

Lemma quiet_refl (p : page) : quiet p p.
Proof.
  repeat split; auto. exists []. split; [|reflexivity].
  now rewrite app_nil_r.
Qed.

Lemma quiet_logging (p q : page) (label : jsstring) (x : logged) :
  quiet p q -> quiet p (logging label x q).
Proof.
  intros (C & F & evs & H & M). repeat split; auto.
  exists (evs ++ [ConsoleError label x]). cbn [logging history]. split.
  - now rewrite H, app_assoc.
  - rewrite existsb_app, M. reflexivity.
Qed.

Lemma quiet_dropping (p q : page) : quiet p q -> quiet p (dropping_node q).
Proof.
  intros (C & F & evs & H & M). repeat split; auto.
  - cbn [dropping_node fresh]. lia.
  - now exists evs.
Qed.

Lemma truthy_get (data : value) (key : jsstring) :
  truthy data = true -> exists v, get data key = Ok v.
Proof. destruct data; simpl; try discriminate; eauto. Qed.

Lemma AppStatic_submit_spec (p : page) :
  AppStatic.sendMessage p = (Ok None, p)
  \/ AppStatic.sendMessage p
     = (Ok (Some (S (fresh p))), sent AppStatic_thinking p).
Proof.
  destruct (trim (userInput p)) as [|c m] eqn:E.
  - left. now apply AppStatic_sendMessage_empty.
  - right. apply AppStatic_sendMessage_sent. now rewrite E.
Qed.

Lemma Popup_submit_spec (p : page) :
  Popup.sendMessage p = (Ok None, p)
  \/ Popup.sendMessage p = (Ok (Some (S (fresh p))), sent Popup_thinking p).
Proof.
  destruct (trim (userInput p)) as [|c m] eqn:E.
  - left. now apply Popup_sendMessage_empty.
  - right. apply Popup_sendMessage_sent. now rewrite E.
Qed.

Lemma AppStatic_response_spec (h : nat) (o : settled response) (p : page) :
  (exists s, AppStatic.fetch_settled h o p = (Ok (Some s), removing h p)
             /\ thinking_of s = h)
  \/ (exists who text q,
        AppStatic.fetch_settled h o p = (Ok None, appending who text q)
        /\ quiet (removing h p) q).
Proof.
  destruct o as [r|err].
  - left. eexists. split; [apply AppStatic_fetch_fulfilled|].
    now destruct (ok r).
  - right. do 3 eexists. split; [apply AppStatic_fetch_rejected|].
    apply quiet_logging, quiet_refl.
Qed.

Lemma Popup_response_spec (h : nat) (o : settled response) (p : page) :
  (exists s, Popup.fetch_settled h o p = (Ok (Some s), removing h p)
             /\ thinking_of s = h)
  \/ (exists who text q,
        Popup.fetch_settled h o p = (Ok None, appending who text q)
        /\ quiet (removing h p) q).
Proof.
  destruct o as [r|err].
  - left. eexists. split; [apply Popup_fetch_fulfilled|].
    now destruct (ok r).
  - right. do 3 eexists. split; [apply Popup_fetch_rejected|].
    apply quiet_logging, quiet_refl.
Qed.

(** The [catch] block of an exchange whose indicator is gone removes
    nothing. *)
Lemma AppStatic_caught_absent (h : nat) (err : exception) (p : page) :
  present h p = false ->
  AppStatic_caught h err p
  = appending error (AppStatic_network err)
      (logging (js "Fetch Error:") (LogError err) p).
Proof. intros P. unfold AppStatic_caught. now rewrite removing_absent. Qed.

Lemma Popup_caught_absent (h : nat) (err : exception) (p : page) :
  present h p = false ->
  Popup_caught h err p
  = appending error Popup_network
      (logging (js "Fetch Error:") (LogError err) p).
Proof. intros P. unfold Popup_caught. now rewrite removing_absent. Qed.

Lemma AppStatic_body_spec (s : suspension) (j : settled value) (p : page) :
  present (thinking_of s) p = false ->
  exists who text q,
    AppStatic.json_settled s j p = (Ok tt, appending who text q)
    /\ quiet p q.
Proof.
  intros P. destruct s as [h r|h r]; cbn [thinking_of] in P.
  - destruct j as [data|err].
    + destruct (get data (js "error")) as [v|e] eqn:G.
      * destruct (truthy v) eqn:T.
        -- destruct (ToString v) as [t|e] eqn:C.
           ++ do 3 eexists. split;
                [apply (AppStatic_error_shown h r data v t p G T C)|].
              apply quiet_logging, quiet_refl.
           ++ do 3 eexists. split.
              ** rewrite (AppStatic_error_unprintable h r data v e p G T C).
                 now rewrite AppStatic_caught_absent.
              ** apply quiet_logging, quiet_logging, quiet_refl.
        -- do 3 eexists. split;
             [apply (AppStatic_error_fallback h r data v p G T)|].
           apply quiet_logging, quiet_refl.
      * do 3 eexists. split.
        -- rewrite (AppStatic_error_nullish h r data e p G).
           now rewrite AppStatic_caught_absent.
        -- apply quiet_logging, quiet_logging, quiet_refl.
    + do 3 eexists. split; [apply AppStatic_error_rejected|].
      apply quiet_logging, quiet_refl.
  - destruct j as [data|err].
    + destruct (truthy data) eqn:D.
      * destruct (truthy_get data (js "reply") D) as [v G].
        destruct (truthy v) eqn:T.
        -- destruct (ToString v) as [t|e] eqn:C.
           ++ do 3 eexists. split;
                [apply (AppStatic_reply_shown h r data v t p G T C)|].
              apply quiet_refl.
           ++ do 3 eexists. split.
              ** rewrite (AppStatic_reply_unprintable h r data v e p G T C).
                 now rewrite AppStatic_caught_absent.
              ** apply quiet_logging, quiet_dropping, quiet_refl.
        -- do 3 eexists. split;
             [apply (AppStatic_reply_falsy h r data v p G T)|].
           apply quiet_refl.
      * do 3 eexists. split; [apply (AppStatic_data_falsy h r data p D)|].
        apply quiet_refl.
    + do 3 eexists. split.
      * rewrite AppStatic_data_rejected. now rewrite AppStatic_caught_absent.
      * apply quiet_logging, quiet_refl.
Qed.

Lemma Popup_body_spec (s : suspension) (j : settled value) (p : page) :
  present (thinking_of s) p = false ->
  exists who text q,
    Popup.json_settled s j p = (Ok tt, appending who text q)
    /\ quiet p q.
Proof.
  intros P. destruct s as [h r|h r]; cbn [thinking_of] in P.
  - destruct j as [data|err].
    + destruct (get data (js "error")) as [v|e] eqn:G.
      * destruct (truthy v) eqn:T.
        -- destruct (ToString v) as [t|e] eqn:C.
           ++ do 3 eexists. split;
                [apply (Popup_error_shown h r data v t p G T C)|].
              apply quiet_logging, quiet_refl.
           ++ do 3 eexists. split.
              ** rewrite (Popup_error_unprintable h r data v e p G T C).
                 now rewrite Popup_caught_absent.
              ** apply quiet_logging, quiet_logging, quiet_refl.
        -- do 3 eexists. split;
             [apply (Popup_error_fallback h r data v p G T)|].
           apply quiet_logging, quiet_refl.
      * do 3 eexists. split.
        -- rewrite (Popup_error_nullish h r data e p G).
           now rewrite Popup_caught_absent.
        -- apply quiet_logging, quiet_logging, quiet_refl.
    + do 3 eexists. split; [apply Popup_error_rejected|].
      apply quiet_logging, quiet_refl.
  - destruct j as [data|err].
    + destruct (truthy data) eqn:D.
      * destruct (truthy_get data (js "reply") D) as [v G].
        destruct (truthy v) eqn:T.
        -- destruct (ToString v) as [t|e] eqn:C.
           ++ do 3 eexists. split;
                [apply (Popup_reply_shown h r data v t p G T C)|].
              apply quiet_refl.
           ++ do 3 eexists. split.
              ** rewrite (Popup_reply_unprintable h r data v e p G T C).
                 now rewrite Popup_caught_absent.
              ** apply quiet_logging, quiet_dropping, quiet_refl.
        -- do 3 eexists. split;
             [apply (Popup_reply_falsy h r data v p G T)|].
           apply quiet_refl.
      * do 3 eexists. split; [apply (Popup_data_falsy h r data p D)|].
        apply quiet_refl.
    + do 3 eexists. split.
      * rewrite Popup_data_rejected. now rewrite Popup_caught_absent.
      * apply quiet_logging, quiet_refl.
Qed.

Lemma Popup_handler_spec (m : M unit) (p : page) :
  In m (handlers Popup_script) -> exists q, m p = (Ok tt, q) /\ quiet p q.
Proof.
  intros [<-|[]]. exists (exec Popup.toggleChat p). run.
  destruct (existsb (jsstring_eqb Popup.hidden) (chatPopup p)) eqn:H;
    cbn [chatbox fresh userInput chatPopup history snd]; rewrite ?H;
    (split; [reflexivity|]).
  - repeat split; auto. exists [FocusScheduled 100]. now split.
  - repeat split; auto. exists []. cbn [history]. now rewrite app_nil_r.
Qed.

Lemma installed_shown (widget : script) (thinking : nat -> element)
    (w : world) :
  In (widget, thinking) installed ->
  reachable widget w ->
  Forall (stage_shows thinking (fst w)) (snd w)
  /\ Forall (settles widget (fst w)) (snd w).
Proof.
  intros [E|[E|[]]] Re; inversion E; subst.
  - exact (shown AppStatic_script AppStatic_thinking
             (fun k => eq_refl) AppStatic_submit_spec
             AppStatic_response_spec AppStatic_body_spec
             (fun m p (I : In m []) => match I with end) w Re).
  - exact (shown Popup_script Popup_thinking
             (fun k => eq_refl) Popup_submit_spec
             Popup_response_spec Popup_body_spec
             Popup_handler_spec w Re).
Qed.

(** C6.  In every world that either script reaches from the load of the
    page, with exchanges overlapping in any way, each exchange stands as
    follows, where the node it holds is the indicator element of the
    script: the bot message whose text is three full stops in the one, the
    bot element of three dots in the other, appended once and as that
    element.  While its request is
    out, the indicator is the one node of that handle in the chat box and
    has not been removed.  Once the request has settled, by a response or
    by a failure, the indicator is out of the chat box and has been removed
    exactly once, after it was appended; it stays so when the [catch] block
    runs after that removal, where the guard finds the indicator gone and
    nothing is removed or thrown.  Once the terminal entry is there, it was
    appended after the removal, so the indicator and the terminal entry of
    an exchange are never in the chat box together.  And whatever the
    outcome of the request or of the body, the segment that handles it runs
    to its end without an exception. *)
Theorem indicator_leaves_before_the_terminal_entry (widget : script)
    (thinking : nat -> element) (w : world) :
  In (widget, thinking) installed ->
  reachable widget w ->
  Forall (stage_shows thinking (fst w)) (snd w)
  /\ Forall (settles widget (fst w)) (snd w)
  /\ (forall h err, present h (fst w) = false ->
        AppStatic.catch h err (fst w)
        = (Ok tt, appending error (AppStatic_network err)
                    (logging (js "Fetch Error:") (LogError err) (fst w)))
        /\ Popup.catch h err (fst w)
           = (Ok tt, appending error Popup_network
                       (logging (js "Fetch Error:") (LogError err) (fst w)))).
Proof.
  intros I Re. destruct (installed_shown widget thinking w I Re) as [A B].
  repeat split; try assumption.
  - now rewrite AppStatic_catch_eq, AppStatic_caught_absent.
  - now rewrite Popup_catch_eq, Popup_caught_absent.
Qed.

End Scripts.

Lemma indicator_leaves_before_the_terminal_entry_witness :
  Forall (stage_shows Popup_thinking (fst overlapping)) (snd overlapping).
Proof.
  apply (indicator_leaves_before_the_terminal_entry Popup_script
           Popup_thinking overlapping).
  { right. left. reflexivity. }
  apply (reachable_step Popup_script
           (first_failed,
            [Rendered 2 (paragraph 5 error Popup_network);
             Responded (AwaitData 4 response_200)])).
  apply (reachable_step Popup_script
           (second_responded,
            [InFlight 2; Responded (AwaitData 4 response_200)])).
  apply (reachable_step Popup_script (both_sent, [InFlight 2; InFlight 4])).
  apply (reachable_step Popup_script
           (typing (js "second") first_sent, [InFlight 2])).
  apply (reachable_step Popup_script (first_sent, [InFlight 2])).
  apply (reachable_step Popup_script (typed (js "first"), [])).
  apply (reachable_step Popup_script (template_page, [])).
  - apply reachable_load; reflexivity.
  - apply step_typing.
  - apply (step_submit Popup_script (typed (js "first")) [] 2). reflexivity.
  - apply step_typing.
  - apply (step_submit Popup_script (typing (js "second") first_sent)
             [InFlight 2] 4). reflexivity.
  - apply (step_response Popup_script both_sent [InFlight 2] 4 []
             (Fulfilled response_200)). reflexivity.
  - apply (step_failure Popup_script second_responded [] 2
             [Responded (AwaitData 4 response_200)]
             (Rejected failed_to_fetch)); reflexivity.
  - apply (step_body Popup_script first_failed
             [Rendered 2 (paragraph 5 error Popup_network)]
             (AwaitData 4 response_200) [] (Fulfilled hi_there));
      reflexivity.
Defined.

(** ** The text that is sent *)

Lemma jsstring_eqb_eq (a b : jsstring) : jsstring_eqb a b = true <-> a = b.
Proof.
  split; [|intros ->; apply jsstring_eqb_refl].
  revert b. induction a as [|x a IH]; destruct b as [|y b]; simpl;
    try discriminate; auto.
  intros H. apply andb_true_iff in H. destruct H as [H1 H2].
  apply N.eqb_eq in H1. subst. f_equal. auto.
Qed.

Lemma blank_app (a b : jsstring) :
  blank (a ++ b) = blank a && blank b.
Proof. apply forallb_app. Qed.

Lemma blank_rev (a : jsstring) : blank a = true -> blank (rev a) = true.
Proof.
  unfold blank. rewrite !forallb_forall. intros H c I.
  apply H. now apply in_rev.
Qed.

Lemma trimStart_split (s : jsstring) :
  exists a, s = a ++ trimStart s /\ blank a = true.
Proof.
  induction s as [|c s (a & E & B)]; simpl.
  - now exists [].
  - destruct (is_white_space c) eqn:W.
    + exists (c :: a). simpl. rewrite W, B. split; [now f_equal|reflexivity].
    + now exists [].
Qed.

Lemma trimEnd_split (s : jsstring) :
  exists b, s = trimEnd s ++ b /\ blank b = true.
Proof.
  destruct (trimStart_split (rev s)) as (a & E & B).
  exists (rev a). split; [|now apply blank_rev].
  unfold trimEnd. rewrite <- rev_app_distr, <- E. now rewrite rev_involutive.
Qed.

Lemma trimStart_idempotent (s : jsstring) :
  trimStart (trimStart s) = trimStart s.
Proof.
  induction s as [|c s IH]; simpl; [reflexivity|].
  destruct (is_white_space c) eqn:W; [assumption|].
  simpl. now rewrite W.
Qed.

Lemma trimStart_snoc (l : jsstring) (c : N) :
  is_white_space c = false -> exists l', trimStart (l ++ [c]) = l' ++ [c].
Proof.
  intros W. induction l as [|d l (l' & IH)]; simpl.
  - exists []. now rewrite W.
  - destruct (is_white_space d).
    + now exists l'.
    + now exists (d :: l).
Qed.

(** What [trim] returns has no white space at its ends. *)
Lemma trim_tight (s : jsstring) :
  trimStart (trim s) = trim s /\ trimStart (rev (trim s)) = rev (trim s).
Proof.
  unfold trim, trimEnd. split.
  - destruct (trimStart s) as [|c t] eqn:E; [reflexivity|].
    pose proof (trimStart_head s c t E) as W.
    change (rev (c :: t)) with (rev t ++ [c]).
    destruct (trimStart_snoc (rev t) c W) as (l' & ->).
    rewrite rev_app_distr. simpl. now rewrite W.
  - rewrite rev_involutive. apply trimStart_idempotent.
Qed.

Lemma trim_idempotent (s : jsstring) : trim (trim s) = trim s.
Proof.
  destruct (trim_tight s) as [A B]. unfold trim at 1, trimEnd.
  now rewrite A, B, rev_involutive.
Qed.

Lemma trim_ends (s : jsstring) :
  is_white_space (hd 0%N (trim s)) = false
  /\ is_white_space (last (trim s) 0%N) = false.
Proof.
  destruct (trim_tight s) as [A B]. split.
  - destruct (trim s) as [|c t] eqn:E; [reflexivity|].
    exact (trimStart_head _ c t A).
  - destruct (rev (trim s)) as [|z u] eqn:E.
    + apply (f_equal (@rev N)) in E. rewrite rev_involutive in E.
      now rewrite E.
    + pose proof (trimStart_head _ z u B) as W.
      apply (f_equal (@rev N)) in E. rewrite rev_involutive in E.
      rewrite E. simpl. now rewrite last_last.
Qed.

Lemma trim_split (s : jsstring) :
  exists a b, s = a ++ trim s ++ b /\ blank a = true /\ blank b = true.
Proof.
  destruct (trimStart_split s) as (a & Ea & Ba).
  destruct (trimEnd_split (trimStart s)) as (b & Eb & Bb).
  exists a, b. unfold trim. now rewrite <- Eb.
Qed.

Section Extras.
Context {engine : Engine}.

Lemma blank_is_empty (s : jsstring) : blank s = is_empty (trim s).
Proof.
  destruct (blank s) eqn:B.
  - now rewrite (blank_trim s B).
  - destruct (trim s) eqn:E; [|reflexivity].
    apply trim_empty_iff in E. rewrite Forall_forall in E.
    apply forallb_forall in E. unfold blank in B. congruence.
Qed.

(** X1.  The [keypress] listener of either script calls [sendMessage] at
    the key [Enter] and does nothing at any other key.  So a key sends
    exactly when it is [Enter] and the input field holds more than white
    space: the listener then appends the user's entry, empties the field,
    appends the indicator, sends the request and holds the indicator; at
    any other key, and whenever the field holds white space only, it
    returns with the page as it was. *)
Theorem only_Enter_sends (key : jsstring) (p : page) :
  (jsstring_eqb key (js "Enter") = true <-> key = js "Enter")
  /\ AppStatic_keypress (js "Enter") p = AppStatic.sendMessage p
  /\ Popup_keypress (js "Enter") p = Popup.sendMessage p
  /\ AppStatic_keypress key p
     = (if jsstring_eqb key (js "Enter") && negb (blank (userInput p))
        then (Ok (Some (S (fresh p))), sent AppStatic_thinking p)
        else (Ok None, p))
  /\ Popup_keypress key p
     = (if jsstring_eqb key (js "Enter") && negb (blank (userInput p))
        then (Ok (Some (S (fresh p))), sent Popup_thinking p)
        else (Ok None, p)).
Proof.
  split; [apply jsstring_eqb_eq|].
  split; [reflexivity|]. split; [reflexivity|].
  unfold AppStatic_keypress, Popup_keypress.
  destruct (jsstring_eqb key (js "Enter")) eqn:K; [|now split].
  rewrite blank_is_empty. cbn [andb].
  destruct (is_empty (trim (userInput p))) eqn:E; cbn [negb].
  - destruct (trim (userInput p)) eqn:T; [|discriminate]. split.
    + now apply AppStatic_sendMessage_empty.
    + now apply Popup_sendMessage_empty.
  - apply is_empty_false in E. split.
    + now apply AppStatic_sendMessage_sent.
    + now apply Popup_sendMessage_sent.
Qed.

Lemma since_sendMessage (p : page) :
  (since p (exec AppStatic.sendMessage p) = []
   /\ since p (exec Popup.sendMessage p) = [])
  \/ (since p (exec AppStatic.sendMessage p) = dispatch AppStatic_thinking p
      /\ since p (exec Popup.sendMessage p) = dispatch Popup_thinking p).
Proof.
  unfold exec, since. destruct (trim (userInput p)) as [|c m] eqn:T.
  - left. rewrite (AppStatic_sendMessage_empty p T),
      (Popup_sendMessage_empty p T). cbn [snd]. now rewrite skipn_length.
  - right.
    rewrite (AppStatic_sendMessage_sent p), (Popup_sendMessage_sent p);
      try (rewrite T; discriminate).
    cbn [snd sent history]. now rewrite !skipn_length_app.
Qed.

(** X2.  The text of the user's entry that [sendMessage] appends is the
    content of the input field without the white space at its two ends and
    with everything in between as it was; it neither starts nor ends with
    white space, trimming it again changes nothing, and it is the [query]
    of the request that is sent. *)
Theorem entry_is_the_input_without_margins (p : page) (h : nat)
    (text : jsstring) :
  In (Appended (paragraph h user text)) (since p (exec AppStatic.sendMessage p))
  \/ In (Appended (paragraph h user text)) (since p (exec Popup.sendMessage p))
  ->
  (exists a b, userInput p = a ++ text ++ b
               /\ blank a = true /\ blank b = true)
  /\ is_white_space (hd 0%N text) = false
  /\ is_white_space (last text 0%N) = false
  /\ trim text = text
  /\ In (Fetched (chat_request text)) (since p (exec AppStatic.sendMessage p))
  /\ In (Fetched (chat_request text)) (since p (exec Popup.sendMessage p)).
Proof.
  intros I.
  destruct (since_sendMessage p) as [[A B]|[A B]]; rewrite A, B in *.
  - destruct I as [[]|[]].
  - assert (E : text = trim (userInput p)).
    { unfold dispatch, AppStatic_thinking, Popup_thinking, paragraph in I.
      simpl in I.
      destruct I as [[I|[I|[I|[I|[]]]]]|[I|[I|[I|[I|[]]]]]];
        inversion I; reflexivity. }
    subst text. split; [apply trim_split|].
    destruct (trim_ends (userInput p)) as [H L].
    repeat split; auto using trim_idempotent;
      unfold dispatch; simpl; auto.
Qed.

End Extras.

Lemma entry_is_the_input_without_margins_witness :
  is_white_space (last (js "hi  there") 0%N) = false
  /\ trim (js "hi  there") = js "hi  there".
Proof.
  refine (let H := entry_is_the_input_without_margins
                     (typed (js "  hi  there ")) 1 (js "hi  there") _ in
          conj (proj1 (proj2 (proj2 H)))
               (proj1 (proj2 (proj2 (proj2 H))))).
  right. vm_compute. left. reflexivity.
Defined.

(** ** The helpers of the scripts *)

Section Helpers.
Context {engine : Engine}.

Lemma textContent_cases (v : value) (p : page) :
  (exists text, textContent v p = (Ok text, p))
  \/ (exists e, ToString v = Throw e /\ textContent v p = (Throw e, p)).
Proof.
  destruct (ToString v) as [t|e] eqn:C.
  - left. destruct v; try (exists []; reflexivity);
      exists t; unfold textContent, eval; now rewrite C.
  - right. exists e. split; [reflexivity|].
    destruct v; try discriminate C;
      unfold textContent, eval; now rewrite C.
Qed.

(** X3.  [addMessageToChatbox] appends one element, last in the chat box,
    with the class of the sender and the text of the message, and returns
    it: the text is empty for [null] and [undefined], and what [ToString]
    makes of the message otherwise.  When [ToString] throws, the function
    throws that exception, having made an element it has not appended: the
    chat box and the record of what was done are as they were.  A message
    that is a string is appended as it is. *)
Theorem addMessageToChatbox_appends_or_nothing (v : value) (who : sender)
    (s : jsstring) (p : page) :
  AppStatic.addMessageToChatbox v who p
  = match v with
    | Undefined | JNull => (Ok (fresh p), appending who [] p)
    | _ => match ToString v with
           | Ok text => (Ok (fresh p), appending who text p)
           | Throw e => (Throw e, dropping_node p)
           end
    end
  /\ Popup.addMessageToChatbox v who p
     = match v with
       | Undefined | JNull => (Ok (fresh p), appending who [] p)
       | _ => match ToString v with
              | Ok text => (Ok (fresh p), appending who text p)
              | Throw e => (Throw e, dropping_node p)
              end
       end
  /\ AppStatic.addMessageToChatbox (JStr s) who p
     = (Ok (fresh p), appending who s p)
  /\ Popup.addMessageToChatbox (JStr s) who p
     = (Ok (fresh p), appending who s p)
  /\ chatbox (dropping_node p) = chatbox p
  /\ history (dropping_node p) = history p.
Proof.
  assert (A : forall text,
             AppStatic.addMessageToChatbox (JStr text) who p
             = (Ok (fresh p), appending who text p)) by reflexivity.
  assert (P : forall text,
             Popup.addMessageToChatbox (JStr text) who p
             = (Ok (fresh p), appending who text p)).
  { intros text. run. unfold appending, paragraph. now destruct who. }
  split; [|split; [|split; [apply A|split; [apply P|now split]]]].
  - destruct v; try exact (A []);
      unfold AppStatic.addMessageToChatbox, bind, createElement,
        textContent, eval;
      match goal with
      | |- context [ToString ?u] =>
          destruct (ToString u) as [text|e]; [exact (A text)|reflexivity]
      end.
  - destruct v; try exact (P []);
      unfold Popup.addMessageToChatbox, bind, createElement,
        textContent, eval;
      match goal with
      | |- context [ToString ?u] =>
          destruct (ToString u) as [text|e]; [exact (P text)|reflexivity]
      end.
Qed.

Lemma older_filter (p : page) :
  older_nodes p = true ->
  filter (fun e => negb (is_node (fresh p) e)) (chatbox p) = chatbox p
  /\ existsb (is_node (fresh p)) (chatbox p) = false.
Proof.
  intros O. apply is_node_older. apply Forall_forall. intros e I.
  unfold older_nodes in O. rewrite forallb_forall in O.
  now apply Nat.ltb_lt, O.
Qed.

(** X4.  [addThinkingIndicator] appends the indicator as the last child of
    the chat box and returns it; the chat box then contains it, removing it
    gives back the chat box as it was before, and removing it a second time
    without asking [contains] first is a [NotFoundError]. *)
Theorem addThinkingIndicator_then_removeChild (p : page) :
  older_nodes p = true ->
  let added := exec Popup.addThinkingIndicator p in
  let removed := exec (removeChild (fresh p)) added in
  fst (Popup.addThinkingIndicator p) = Ok (fresh p)
  /\ lastChild added = Some (Popup_thinking (fresh p))
  /\ fst (contains (fresh p) added) = Ok true
  /\ fst (removeChild (fresh p) added) = Ok tt
  /\ chatbox removed = chatbox p
  /\ fst (contains (fresh p) removed) = Ok false
  /\ removeChild (fresh p) removed = (Throw not_found_error, removed).
Proof.
  intros O. destruct (older_filter p O) as [F X].
  assert (C : existsb (is_node (fresh p))
                (chatbox p ++ [Popup_thinking (fresh p)]) = true).
  { rewrite existsb_app. simpl. unfold is_node. simpl.
    rewrite Nat.eqb_refl. now rewrite !orb_true_r. }
  assert (R : filter (fun e => negb (is_node (fresh p) e))
                (chatbox p ++ [Popup_thinking (fresh p)]) = chatbox p).
  { rewrite filter_app, F. simpl. unfold is_node. simpl.
    rewrite Nat.eqb_refl. simpl. apply app_nil_r. }
  run. unfold lastChild, Popup_thinking in *.
  cbn [chatbox fresh userInput chatPopup history fst snd].
  rewrite C. cbn [chatbox fresh userInput chatPopup history fst snd].
  rewrite R, X, rev_unit. repeat split.
Qed.

(** X5.  [toggleChat] never throws and touches nothing but the class list
    of the popup: the chat box, the input field and the nodes are as they
    were.  It schedules the focus of the input, 100 ms later, when it
    opens the panel, and does nothing else when it closes it. *)
Theorem toggleChat_touches_the_panel_only (p : page) :
  fst (Popup.toggleChat p) = Ok tt
  /\ chatbox (exec Popup.toggleChat p) = chatbox p
  /\ userInput (exec Popup.toggleChat p) = userInput p
  /\ fresh (exec Popup.toggleChat p) = fresh p
  /\ since p (exec Popup.toggleChat p)
     = match panelState p with
       | closed => [FocusScheduled 100]
       | open => []
       end.
Proof.
  unfold panelState, since. run.
  destruct (existsb (jsstring_eqb Popup.hidden) (chatPopup p)) eqn:H;
    cbn [chatbox fresh userInput chatPopup history fst snd]; rewrite ?H;
    cbn [chatbox fresh userInput chatPopup history fst snd];
    rewrite ?skipn_length_app, ?skipn_length; repeat split.
Qed.

Lemma existsb_eqb_filter (t : jsstring) (f : jsstring -> bool)
    (l : list jsstring) :
  existsb (jsstring_eqb t) l = false ->
  existsb (jsstring_eqb t) (filter f l) = false.
Proof.
  induction l as [|u l IH]; simpl; [reflexivity|].
  intros H. apply orb_false_iff in H. destruct H as [H1 H2].
  destruct (f u); simpl; [rewrite H1|]; auto.
Qed.

Lemma distinct_filter (f : jsstring -> bool) (l : list jsstring) :
  distinct l = true -> distinct (filter f l) = true.
Proof.
  induction l as [|t l IH]; simpl; [reflexivity|].
  intros H. apply andb_true_iff in H. destruct H as [H1 H2].
  destruct (f t); simpl; auto.
  apply negb_true_iff in H1.
  now rewrite (existsb_eqb_filter t f l H1), IH.
Qed.

Lemma jsstring_eqb_sym (a b : jsstring) :
  jsstring_eqb a b = jsstring_eqb b a.
Proof.
  revert b. induction a as [|x a IH]; destruct b as [|y b]; simpl; auto.
  now rewrite N.eqb_sym, IH.
Qed.

Lemma distinct_snoc (t : jsstring) (l : list jsstring) :
  distinct l = true ->
  existsb (jsstring_eqb t) l = false ->
  distinct (l ++ [t]) = true.
Proof.
  induction l as [|u l IH]; simpl; [reflexivity|].
  intros H X. apply andb_true_iff in H. destruct H as [H1 H2].
  apply orb_false_iff in X. destruct X as [X1 X2].
  rewrite existsb_app, (IH H2 X2). simpl.
  apply negb_true_iff in H1. rewrite H1, jsstring_eqb_sym, X1. reflexivity.
Qed.

Lemma filter_twice {A} (f : A -> bool) (l : list A) :
  filter f (filter f l) = filter f l.
Proof.
  induction l as [|a l IH]; simpl; [reflexivity|].
  destruct (f a) eqn:E; simpl; rewrite ?E, IH; reflexivity.
Qed.

(** X6.  [toggleChat] keeps the class list of the popup a set, and keeps
    its classes other than [hidden], in their order: only [hidden] comes
    and goes. *)
Theorem toggleChat_keeps_the_other_classes (p : page) :
  distinct (chatPopup p) = true ->
  distinct (chatPopup (exec Popup.toggleChat p)) = true
  /\ other_classes (exec Popup.toggleChat p) = other_classes p.
Proof.
  intros D. unfold other_classes. run.
  destruct (existsb (jsstring_eqb Popup.hidden) (chatPopup p)) eqn:H;
    cbn [chatbox fresh userInput chatPopup history fst snd]; rewrite ?H;
    cbn [chatbox fresh userInput chatPopup history fst snd].
  - split; [now apply distinct_filter|apply filter_twice].
  - split; [now apply distinct_snoc|].
    rewrite filter_app. simpl. apply app_nil_r.
Qed.

End Helpers.

Lemma addThinkingIndicator_then_removeChild_witness :
  chatbox (exec (removeChild 1)
                (exec Popup.addThinkingIndicator (typed (js "hello"))))
  = chatbox (typed (js "hello")).
Proof.
  apply (addThinkingIndicator_then_removeChild (typed (js "hello"))).
  reflexivity.
Defined.

Lemma toggleChat_keeps_the_other_classes_witness :
  other_classes (exec Popup.toggleChat (typed (js "hello")))
  = other_classes (typed (js "hello")).
Proof.
  apply (toggleChat_keeps_the_other_classes (typed (js "hello"))).
  reflexivity.
Defined.

(** ** Every way a segment can end *)

Section Endings.
Context {engine : Engine}.

Lemma settling_caught (h : nat) (p q : page) (label : jsstring) (x : logged) :
  settling h p q -> settling h p (logging label x (removing h q)).
Proof. intros S. now apply settling_logging, settling_removing. Qed.

Lemma settling_frame (h : nat) (p q : page) :
  settling h p q ->
  userInput q = userInput p /\ chatPopup q = chatPopup p
  /\ fresh p <= fresh q.
Proof.
  induction 1 as [|q _ (U & C & F)|q label x _ (U & C & F)|q _ (U & C & F)].
  - auto.
  - unfold removing. destruct (existsb _ _); cbn; auto.
  - cbn. auto.
  - cbn. repeat split; auto.
Qed.

(** Once the indicator is gone, only the console is written. *)
Lemma settling_absent (h : nat) (p q : page) :
  settling h p q ->
  present h p = false ->
  chatbox q = chatbox p
  /\ exists evs, history q = history p ++ evs
                 /\ forallb is_console_error evs = true.
Proof.
  intros S P.
  induction S as [|q _ (C & evs & H & L)|q label x _ (C & evs & H & L)
                 |q _ (C & evs & H & L)].
  - split; [reflexivity|]. exists []. now rewrite app_nil_r.
  - rewrite removing_absent; [|unfold present in P; now rewrite C].
    split; [assumption|]. now exists evs.
  - split; [assumption|]. exists (evs ++ [ConsoleError label x]).
    cbn [logging history]. rewrite H, forallb_app, L. now rewrite app_assoc.
  - split; [assumption|]. now exists evs.
Qed.

Lemma AppStatic_body_ends (s : suspension) (j : settled value) (p : page) :
  exists who text q,
    AppStatic.json_settled s j p = (Ok tt, appending who text q)
    /\ settling (thinking_of s) p q
    /\ who <> user
    /\ (who = bot ->
        q = p
        /\ exists r data v,
             s = AwaitData (thinking_of s) r /\ j = Fulfilled data
             /\ get data (js "reply") = Ok v /\ truthy v = true
             /\ ToString v = Ok text).
Proof.
  pose proof (settling_start (thinking_of s) p) as S0.
  destruct s as [h r|h r]; cbn [thinking_of] in *.
  - destruct j as [data|err].
    + destruct (get data (js "error")) as [v|e] eqn:G.
      * destruct (truthy v) eqn:T.
        -- destruct (ToString v) as [t|e] eqn:C.
           ++ do 3 eexists. split;
                [apply (AppStatic_error_shown h r data v t p G T C)|].
              split; [apply settling_logging, S0|].
              split; [|intros]; discriminate.
           ++ do 3 eexists. split;
                [apply (AppStatic_error_unprintable h r data v e p G T C)|].
              split; [apply settling_caught, settling_logging, S0|].
              split; [|intros]; discriminate.
        -- do 3 eexists. split;
             [apply (AppStatic_error_fallback h r data v p G T)|].
           split; [apply settling_logging, S0|].
           split; [|intros]; discriminate.
      * do 3 eexists. split;
          [apply (AppStatic_error_nullish h r data e p G)|].
        split; [apply settling_caught, settling_logging, S0|].
        split; [|intros]; discriminate.
    + do 3 eexists. split; [apply AppStatic_error_rejected|].
      split; [apply settling_logging, S0|].
      split; [|intros]; discriminate.
  - destruct j as [data|err].
    + destruct (truthy data) eqn:D.
      * destruct (truthy_get data (js "reply") D) as [v G].
        destruct (truthy v) eqn:T.
        -- destruct (ToString v) as [t|e] eqn:C.
           ++ do 3 eexists. split;
                [apply (AppStatic_reply_shown h r data v t p G T C)|].
              split; [apply S0|]. split; [discriminate|]. intros _.
              split; [reflexivity|]. now exists r, data, v.
           ++ do 3 eexists. split;
                [apply (AppStatic_reply_unprintable h r data v e p G T C)|].
              split; [apply settling_caught, settling_dropping, S0|].
              split; [|intros]; discriminate.
        -- do 3 eexists. split;
             [apply (AppStatic_reply_falsy h r data v p G T)|].
           split; [apply S0|]. split; [|intros]; discriminate.
      * do 3 eexists. split; [apply (AppStatic_data_falsy h r data p D)|].
        split; [apply S0|]. split; [|intros]; discriminate.
    + do 3 eexists. split; [apply AppStatic_data_rejected|].
      split; [apply settling_caught, S0|].
      split; [|intros]; discriminate.
Qed.

Lemma Popup_body_ends (s : suspension) (j : settled value) (p : page) :
  exists who text q,
    Popup.json_settled s j p = (Ok tt, appending who text q)
    /\ settling (thinking_of s) p q
    /\ who <> user
    /\ (who = bot ->
        q = p
        /\ exists r data v,
             s = AwaitData (thinking_of s) r /\ j = Fulfilled data
             /\ get data (js "reply") = Ok v /\ truthy v = true
             /\ ToString v = Ok text).
Proof.
  pose proof (settling_start (thinking_of s) p) as S0.
  destruct s as [h r|h r]; cbn [thinking_of] in *.
  - destruct j as [data|err].
    + destruct (get data (js "error")) as [v|e] eqn:G.
      * destruct (truthy v) eqn:T.
        -- destruct (ToString v) as [t|e] eqn:C.
           ++ do 3 eexists. split;
                [apply (Popup_error_shown h r data v t p G T C)|].
              split; [apply settling_logging, S0|].
              split; [|intros]; discriminate.
           ++ do 3 eexists. split;
                [apply (Popup_error_unprintable h r data v e p G T C)|].
              split; [apply settling_caught, settling_logging, S0|].
              split; [|intros]; discriminate.
        -- do 3 eexists. split;
             [apply (Popup_error_fallback h r data v p G T)|].
           split; [apply settling_logging, S0|].
           split; [|intros]; discriminate.
      * do 3 eexists. split;
          [apply (Popup_error_nullish h r data e p G)|].
        split; [apply settling_caught, settling_logging, S0|].
        split; [|intros]; discriminate.
    + do 3 eexists. split; [apply Popup_error_rejected|].
      split; [apply settling_logging, S0|].
      split; [|intros]; discriminate.
  - destruct j as [data|err].
    + destruct (truthy data) eqn:D.
      * destruct (truthy_get data (js "reply") D) as [v G].
        destruct (truthy v) eqn:T.
        -- destruct (ToString v) as [t|e] eqn:C.
           ++ do 3 eexists. split;
                [apply (Popup_reply_shown h r data v t p G T C)|].
              split; [apply S0|]. split; [discriminate|]. intros _.
              split; [reflexivity|]. now exists r, data, v.
           ++ do 3 eexists. split;
                [apply (Popup_reply_unprintable h r data v e p G T C)|].
              split; [apply settling_caught, settling_dropping, S0|].
              split; [|intros]; discriminate.
        -- do 3 eexists. split;
             [apply (Popup_reply_falsy h r data v p G T)|].
           split; [apply S0|]. split; [|intros]; discriminate.
      * do 3 eexists. split; [apply (Popup_data_falsy h r data p D)|].
        split; [apply S0|]. split; [|intros]; discriminate.
    + do 3 eexists. split; [apply Popup_data_rejected|].
      split; [apply settling_caught, S0|].
      split; [|intros]; discriminate.
Qed.

Lemma AppStatic_exchange_ends (o : settled response) (j : settled value)
    (p : page) :
  is_empty (trim (userInput p)) = false ->
  exists who text q,
    exec (AppStatic.exchange o j) p = appending who text q
    /\ settling (S (fresh p))
         (removing (S (fresh p)) (sent AppStatic_thinking p)) q
    /\ who <> user
    /\ (who = bot ->
        q = removing (S (fresh p)) (sent AppStatic_thinking p)
        /\ exists r data v,
             o = Fulfilled r /\ ok r = true /\ j = Fulfilled data
             /\ get data (js "reply") = Ok v /\ truthy v = true
             /\ ToString v = Ok text).
Proof.
  intros E. rewrite (AppStatic_exchange_sent o j p E).
  destruct o as [r|err].
  - rewrite AppStatic_fetch_fulfilled. unfold exec.
    destruct (AppStatic_body_ends (if ok r then AwaitData (S (fresh p)) r
                                 else AwaitErrorData (S (fresh p)) r) j
                (removing (S (fresh p)) (sent AppStatic_thinking p)))
      as (who & text & q & H & St & U & B).
    rewrite H. cbn [snd]. exists who, text, q.
    split; [reflexivity|].
    split; [now destruct (ok r)|]. split; [assumption|].
    intros W. destruct (B W) as (Q & r' & data & v & Es & Ej & G & T & C).
    split; [assumption|]. exists r, data, v.
    destruct (ok r); [|discriminate Es]. now repeat split.
  - rewrite AppStatic_fetch_rejected. unfold AppStatic_caught. do 3 eexists.
    split; [reflexivity|].
    split; [apply settling_logging, settling_start|].
    split; [|intros]; discriminate.
Qed.

Lemma Popup_exchange_ends (o : settled response) (j : settled value)
    (p : page) :
  is_empty (trim (userInput p)) = false ->
  exists who text q,
    exec (Popup.exchange o j) p = appending who text q
    /\ settling (S (fresh p))
         (removing (S (fresh p)) (sent Popup_thinking p)) q
    /\ who <> user
    /\ (who = bot ->
        q = removing (S (fresh p)) (sent Popup_thinking p)
        /\ exists r data v,
             o = Fulfilled r /\ ok r = true /\ j = Fulfilled data
             /\ get data (js "reply") = Ok v /\ truthy v = true
             /\ ToString v = Ok text).
Proof.
  intros E. rewrite (Popup_exchange_sent o j p E).
  destruct o as [r|err].
  - rewrite Popup_fetch_fulfilled. unfold exec.
    destruct (Popup_body_ends (if ok r then AwaitData (S (fresh p)) r
                                 else AwaitErrorData (S (fresh p)) r) j
                (removing (S (fresh p)) (sent Popup_thinking p)))
      as (who & text & q & H & St & U & B).
    rewrite H. cbn [snd]. exists who, text, q.
    split; [reflexivity|].
    split; [now destruct (ok r)|]. split; [assumption|].
    intros W. destruct (B W) as (Q & r' & data & v & Es & Ej & G & T & C).
    split; [assumption|]. exists r, data, v.
    destruct (ok r); [|discriminate Es]. now repeat split.
  - rewrite Popup_fetch_rejected. unfold Popup_caught. do 3 eexists.
    split; [reflexivity|].
    split; [apply settling_logging, settling_start|].
    split; [|intros]; discriminate.
Qed.

(** X7.  No exception leaves [sendMessage]: whatever the page, the outcome
    of the request and the outcome of the body, each of its segments, in
    either script, runs to its end. *)
Theorem no_exception_escapes (p : page) (h : nat) (o : settled response)
    (s : suspension) (j : settled value) :
  ((exists k, fst (AppStatic.sendMessage p) = Ok k)
   /\ (exists k, fst (AppStatic.fetch_settled h o p) = Ok k)
   /\ fst (AppStatic.json_settled s j p) = Ok tt)
  /\ ((exists k, fst (Popup.sendMessage p) = Ok k)
      /\ (exists k, fst (Popup.fetch_settled h o p) = Ok k)
      /\ fst (Popup.json_settled s j p) = Ok tt).
Proof.
  split; repeat split.
  - destruct (AppStatic_submit_spec p) as [-> | ->]; eexists; reflexivity.
  - destruct (AppStatic_response_spec h o p)
      as [(s' & -> & _)|(who & text & q & -> & _)]; eexists; reflexivity.
  - destruct (AppStatic_body_ends s j p) as (who & text & q & -> & _).
    reflexivity.
  - destruct (Popup_submit_spec p) as [-> | ->]; eexists; reflexivity.
  - destruct (Popup_response_spec h o p)
      as [(s' & -> & _)|(who & text & q & -> & _)]; eexists; reflexivity.
  - destruct (Popup_body_ends s j p) as (who & text & q & -> & _).
    reflexivity.
Qed.

Lemma AppStatic_settlement_frame (h : nat) (o : settled response)
    (s : suspension) (j : settled value) (p : page) :
  (userInput (exec (AppStatic.fetch_settled h o) p) = userInput p
   /\ chatPopup (exec (AppStatic.fetch_settled h o) p) = chatPopup p)
  /\ (userInput (exec (AppStatic.json_settled s j) p) = userInput p
      /\ chatPopup (exec (AppStatic.json_settled s j) p) = chatPopup p).
Proof.
  unfold exec. split.
  - destruct o as [r|err].
    + rewrite AppStatic_fetch_fulfilled. cbn [snd].
      destruct (settling_frame h p _
                  (settling_removing h p p (settling_start h p)))
        as (U & C & _). auto.
    + rewrite AppStatic_fetch_rejected. cbn [snd].
      unfold AppStatic_caught.
      cbn [appending logging userInput chatPopup].
      destruct (settling_frame h p _
                  (settling_removing h p p (settling_start h p)))
        as (U & C & _). auto.
  - destruct (AppStatic_body_ends s j p) as (who & text & q & -> & St & _).
    cbn [snd appending userInput chatPopup].
    destruct (settling_frame _ p q St) as (U & C & _). auto.
Qed.

Lemma Popup_settlement_frame (h : nat) (o : settled response)
    (s : suspension) (j : settled value) (p : page) :
  (userInput (exec (Popup.fetch_settled h o) p) = userInput p
   /\ chatPopup (exec (Popup.fetch_settled h o) p) = chatPopup p)
  /\ (userInput (exec (Popup.json_settled s j) p) = userInput p
      /\ chatPopup (exec (Popup.json_settled s j) p) = chatPopup p).
Proof.
  unfold exec. split.
  - destruct o as [r|err].
    + rewrite Popup_fetch_fulfilled. cbn [snd].
      destruct (settling_frame h p _
                  (settling_removing h p p (settling_start h p)))
        as (U & C & _). auto.
    + rewrite Popup_fetch_rejected. cbn [snd].
      unfold Popup_caught.
      cbn [appending logging userInput chatPopup].
      destruct (settling_frame h p _
                  (settling_removing h p p (settling_start h p)))
        as (U & C & _). auto.
  - destruct (Popup_body_ends s j p) as (who & text & q & -> & St & _).
    cbn [snd appending userInput chatPopup].
    destruct (settling_frame _ p q St) as (U & C & _). auto.
Qed.

Lemma chatPopup_exchange (p : page) (o : settled response)
    (j : settled value) :
  chatPopup (exec (AppStatic.exchange o j) p) = chatPopup p
  /\ chatPopup (exec (Popup.exchange o j) p) = chatPopup p.
Proof.
  destruct (is_empty (trim (userInput p))) eqn:E.
  - destruct (trim (userInput p)) eqn:T; [|discriminate].
    unfold exec, AppStatic.exchange, Popup.exchange, bind.
    now rewrite (AppStatic_sendMessage_empty p T),
      (Popup_sendMessage_empty p T).
  - destruct (AppStatic_exchange_ends o j p E) as (w1 & t1 & q1 & -> & S1 & _).
    destruct (Popup_exchange_ends o j p E) as (w2 & t2 & q2 & -> & S2 & _).
    cbn [appending chatPopup].
    destruct (settling_frame _ _ _ S1) as (_ & -> & _).
    destruct (settling_frame _ _ _ S2) as (_ & -> & _).
    destruct (settling_frame _ _ _
                (settling_removing _ _ _
                   (settling_start (S (fresh p)) (sent AppStatic_thinking p))))
      as (_ & -> & _).
    destruct (settling_frame _ _ _
                (settling_removing _ _ _
                   (settling_start (S (fresh p)) (sent Popup_thinking p))))
      as (_ & -> & _).
    split; reflexivity.
Qed.

(** X8.  What the user types while an exchange is pending is not lost, and
    an exchange neither opens nor closes the panel: the segments that run
    when the response and when its body arrive leave the input field and
    the class list of the popup as they are, on any page, and so does a
    whole exchange with the class list; the state of the panel is then as
    it was. *)
Theorem settlement_keeps_the_input_and_the_panel (p : page) (h : nat)
    (o : settled response) (s : suspension) (j : settled value) :
  (userInput (exec (AppStatic.fetch_settled h o) p) = userInput p
   /\ userInput (exec (AppStatic.json_settled s j) p) = userInput p
   /\ chatPopup (exec (AppStatic.fetch_settled h o) p) = chatPopup p
   /\ chatPopup (exec (AppStatic.json_settled s j) p) = chatPopup p
   /\ chatPopup (exec (AppStatic.exchange o j) p) = chatPopup p
   /\ panelState (exec (AppStatic.fetch_settled h o) p) = panelState p
   /\ panelState (exec (AppStatic.json_settled s j) p) = panelState p
   /\ panelState (exec (AppStatic.exchange o j) p) = panelState p)
  /\ (userInput (exec (Popup.fetch_settled h o) p) = userInput p
      /\ userInput (exec (Popup.json_settled s j) p) = userInput p
      /\ chatPopup (exec (Popup.fetch_settled h o) p) = chatPopup p
      /\ chatPopup (exec (Popup.json_settled s j) p) = chatPopup p
      /\ chatPopup (exec (Popup.exchange o j) p) = chatPopup p
      /\ panelState (exec (Popup.fetch_settled h o) p) = panelState p
      /\ panelState (exec (Popup.json_settled s j) p) = panelState p
      /\ panelState (exec (Popup.exchange o j) p) = panelState p).
Proof.
  destruct (AppStatic_settlement_frame h o s j p) as [[A1 A2] [A3 A4]].
  destruct (Popup_settlement_frame h o s j p) as [[B1 B2] [B3 B4]].
  destruct (chatPopup_exchange p o j) as [A5 B5].
  unfold panelState. rewrite A2, A4, A5, B2, B4, B5. repeat split; assumption.
Qed.

Lemma exchanged_settling (thinking : nat -> element) (p q : page)
    (who : sender) (text : jsstring) :
  older_nodes p = true ->
  handle (thinking (S (fresh p))) = S (fresh p) ->
  settling (S (fresh p)) (removing (S (fresh p)) (sent thinking p)) q ->
  exists diagnostics,
    exchanged thinking p (appending who text q) diagnostics
      (paragraph (fresh q) who text)
    /\ forallb is_console_error diagnostics = true.
Proof.
  intros O T St.
  destruct (settling_absent _ _ _ St (present_removing _ _))
    as (C & evs & H & L).
  exists evs. split; [|assumption].
  now apply exchanged_appending.
Qed.

Lemma one_fetch (thinking : nat -> element) (p p' : page)
    (diagnostics : list event) (terminal : element) :
  exchanged thinking p p' diagnostics terminal ->
  forallb is_console_error diagnostics = true ->
  List.length (filter is_fetch (since p p')) = 1.
Proof.
  intros [_ ->] L. unfold dispatch. rewrite !filter_app. cbn.
  replace (filter is_fetch diagnostics) with (@nil event); [reflexivity|].
  symmetry. induction diagnostics as [|ev l IH]; [reflexivity|].
  simpl in L. apply andb_true_iff in L. destruct L as [L1 L2].
  destruct ev; try discriminate L1. simpl. auto.
Qed.

(** X9.  Whatever the outcome of the request and of the body, an exchange
    for an input that is not empty ends with exactly one entry after the
    user's, a paragraph of class bot or error, appended after the removal
    of the indicator; between the two only the console is written; and
    exactly one request was sent: there is no second attempt. *)
Theorem every_exchange_ends_with_one_entry (p : page) (o : settled response)
    (j : settled value) :
  older_nodes p = true ->
  is_empty (trim (userInput p)) = false ->
  (exists diagnostics h who text,
     exchanged AppStatic_thinking p (exec (AppStatic.exchange o j) p)
       diagnostics (paragraph h who text)
     /\ who <> user
     /\ forallb is_console_error diagnostics = true
     /\ List.length
          (filter is_fetch (since p (exec (AppStatic.exchange o j) p))) = 1)
  /\ (exists diagnostics h who text,
        exchanged Popup_thinking p (exec (Popup.exchange o j) p)
          diagnostics (paragraph h who text)
        /\ who <> user
        /\ forallb is_console_error diagnostics = true
        /\ List.length
             (filter is_fetch (since p (exec (Popup.exchange o j) p))) = 1).
Proof.
  intros O E. split.
  - destruct (AppStatic_exchange_ends o j p E)
      as (who & text & q & -> & St & U & _).
    destruct (exchanged_settling AppStatic_thinking p q who text O eq_refl St)
      as (d & X & L).
    exists d, (fresh q), who, text. repeat split; try assumption;
      try apply X. now apply (one_fetch _ _ _ _ _ X).
  - destruct (Popup_exchange_ends o j p E)
      as (who & text & q & -> & St & U & _).
    destruct (exchanged_settling Popup_thinking p q who text O eq_refl St)
      as (d & X & L).
    exists d, (fresh q), who, text. repeat split; try assumption;
      try apply X. now apply (one_fetch _ _ _ _ _ X).
Qed.

(** X10.  An entry of the bot is never the end of an exchange that failed:
    when the last child of the chat box after an exchange is of class bot,
    the request was answered with an OK status, the body parsed, its
    [reply] is truthy and the text of the entry is that reply, converted. *)
Theorem bot_entry_only_for_a_reply (p : page) (o : settled response)
    (j : settled value) (e : element) :
  is_empty (trim (userInput p)) = false ->
  lastChild (exec (AppStatic.exchange o j) p) = Some e
  \/ lastChild (exec (Popup.exchange o j) p) = Some e ->
  sender_class e = bot ->
  exists r data v text,
    o = Fulfilled r /\ ok r = true /\ j = Fulfilled data
    /\ get data (js "reply") = Ok v /\ truthy v = true
    /\ ToString v = Ok text /\ inner e = Paragraph text.
Proof.
  intros E [L|L] B.
  - destruct (AppStatic_exchange_ends o j p E)
      as (who & text & q & H & _ & _ & W).
    rewrite H, lastChild_appending in L. inversion L; subst e.
    cbn in B. destruct (W B) as (_ & r & data & v & ? & ? & ? & ? & ? & ?).
    now exists r, data, v, text.
  - destruct (Popup_exchange_ends o j p E)
      as (who & text & q & H & _ & _ & W).
    rewrite H, lastChild_appending in L. inversion L; subst e.
    cbn in B. destruct (W B) as (_ & r & data & v & ? & ? & ? & ? & ? & ?).
    now exists r, data, v, text.
Qed.

End Endings.

Lemma every_exchange_ends_with_one_entry_witness :
  exists diagnostics h who text,
    exchanged Popup_thinking (typed (js "hello"))
      (exec (Popup.exchange (Fulfilled response_500) (Fulfilled JNull))
            (typed (js "hello")))
      diagnostics (paragraph h who text)
    /\ who <> user
    /\ forallb is_console_error diagnostics = true
    /\ List.length
         (filter is_fetch
            (since (typed (js "hello"))
               (exec (Popup.exchange (Fulfilled response_500)
                        (Fulfilled JNull)) (typed (js "hello"))))) = 1.
Proof.
  apply (every_exchange_ends_with_one_entry (typed (js "hello"))
           (Fulfilled response_500) (Fulfilled JNull)); reflexivity.
Defined.

Lemma bot_entry_only_for_a_reply_witness :
  exists r data v text,
    Fulfilled response_200 = Fulfilled r /\ ok r = true
    /\ Fulfilled hi_there = Fulfilled data
    /\ get data (js "reply") = Ok v /\ truthy v = true
    /\ ToString v = Ok text
    /\ inner (paragraph 3 bot (js "Hi there")) = Paragraph text.
Proof.
  apply (bot_entry_only_for_a_reply (typed (js "hello"))
           (Fulfilled response_200) (Fulfilled hi_there)
           (paragraph 3 bot (js "Hi there"))).
  - reflexivity.
  - right. reflexivity.
  - reflexivity.
Defined.

(** ** The transcript over overlapping exchanges *)

Section Transcript.
Context {engine : Engine}.
Variable widget : script.
Variable thinking : nat -> element.

Hypothesis submit_spec : forall p,
  on_submit widget p = (Ok None, p)
  \/ on_submit widget p = (Ok (Some (S (fresh p))), sent thinking p).

Hypothesis response_spec : forall h o p,
  (exists s, on_response widget h o p = (Ok (Some s), removing h p)
             /\ thinking_of s = h)
  \/ (exists who text q,
        on_response widget h o p = (Ok None, appending who text q)
        /\ quiet (removing h p) q).

Hypothesis body_spec : forall s j p,
  present (thinking_of s) p = false ->
  exists who text q,
    on_body widget s j p = (Ok tt, appending who text q) /\ quiet p q.

Hypothesis handler_spec : forall m p,
  In m (handlers widget) -> exists q, m p = (Ok tt, q) /\ quiet p q.

Lemma filter_all {A} (l : list A) : filter (fun _ => true) l = l.
Proof. induction l; simpl; congruence. Qed.

Lemma chatbox_removing (h : nat) (p : page) :
  chatbox (removing h p) = filter (fun e => negb (is_node h e)) (chatbox p).
Proof.
  unfold removing. destruct (existsb (is_node h) (chatbox p)) eqn:P;
    [reflexivity|].
  induction (chatbox p) as [|e l IH]; [reflexivity|].
  simpl in *. apply orb_false_iff in P. destruct P as [-> P].
  simpl. f_equal. auto.
Qed.

Lemma in_flight_here (h : nat) (xs1 xs2 : list stage) :
  existsb (in_flight h) (xs1 ++ InFlight h :: xs2) = true.
Proof.
  rewrite existsb_app. simpl. rewrite Nat.eqb_refl.
  now rewrite orb_true_r.
Qed.

(** What a step does to the chat box: it filters it and appends to it, and
    what it filters out is the indicator of an exchange whose request was
    out. *)
Lemma step_keeps_entries (w w' : world) :
  Forall (stage_ok (fst w)) (snd w) ->
  step widget w w' ->
  exists keep l,
    chatbox (fst w') = filter keep (chatbox (fst w)) ++ l
    /\ forall e, In e (chatbox (fst w)) -> keep e = false ->
                 existsb (in_flight (handle e)) (snd w) = true.
Proof.
  intros K St. destruct St as
    [p xs v | p xs m p' I Hm | p xs p' Hs | p xs h p' Hs
    | p xs1 h xs2 o s p' Hr | p xs1 h xs2 o p' t Hr L
    | p xs1 s xs2 j p' t Hb L]; cbn [fst snd] in *.
  - exists (fun _ => true), []. rewrite filter_all, app_nil_r.
    split; [reflexivity|discriminate].
  - destruct (handler_spec m p I) as (q & Hq & C & _).
    rewrite Hq in Hm. inversion Hm; subst.
    exists (fun _ => true), []. rewrite filter_all, app_nil_r.
    split; [assumption|discriminate].
  - destruct (submit_spec p) as [H|H]; rewrite H in Hs; inversion Hs; subst.
    exists (fun _ => true), []. rewrite filter_all, app_nil_r.
    split; [reflexivity|discriminate].
  - destruct (submit_spec p) as [H|H]; rewrite H in Hs; inversion Hs; subst.
    exists (fun _ => true),
      [paragraph (fresh p) user (trim (userInput p)); thinking (S (fresh p))].
    rewrite filter_all. split; [reflexivity|discriminate].
  - destruct (response_spec h o p) as [(s' & H & E)|(who & text & q & H & Q)];
      rewrite H in Hr; inversion Hr; subst.
    exists (fun e => negb (is_node (thinking_of s) e)), [].
    rewrite app_nil_r. split; [apply chatbox_removing|].
    intros e _ N. apply negb_false_iff in N. unfold is_node in N.
    apply Nat.eqb_eq in N. rewrite N. apply in_flight_here.
  - destruct (response_spec h o p) as [(s' & H & E)|(who & text & q & H & Q)];
      rewrite H in Hr; inversion Hr; subst.
    destruct Q as (C & _).
    exists (fun e => negb (is_node h e)), [paragraph (fresh q) who text].
    cbn [appending chatbox]. rewrite C, chatbox_removing.
    split; [reflexivity|].
    intros e _ N. apply negb_false_iff in N. unfold is_node in N.
    apply Nat.eqb_eq in N. rewrite N. apply in_flight_here.
  - apply Forall_app in K. destruct K as [_ K].
    inversion K as [|? ? Kx _]; subst. cbn [stage_ok] in Kx.
    destruct Kx as [P _].
    destruct (body_spec s j p P) as (who & text & q & H & C & _).
    rewrite H in Hb. inversion Hb; subst.
    exists (fun _ => true), [paragraph (fresh q) who text].
    cbn [appending chatbox]. rewrite C, filter_all.
    split; [reflexivity|discriminate].
Qed.

End Transcript.

Section TranscriptOfTheScripts.
Context {engine : Engine}.

(** X11.  The transcript is append-only but for the indicators: a step of
    the event loop of either script, whatever it is, keeps the entries of
    the chat box in their order and puts what it adds at the end; and an
    entry it removes is the indicator element of the script, that of an
    exchange whose request is still out. *)
Theorem transcript_is_append_only (widget : script)
    (thinking : nat -> element) (w w' : world) :
  In (widget, thinking) installed ->
  reachable widget w ->
  step widget w w' ->
  exists keep l,
    chatbox (fst w') = filter keep (chatbox (fst w)) ++ l
    /\ forall e, In e (chatbox (fst w)) -> keep e = false ->
                 e = thinking (handle e)
                 /\ existsb (in_flight (handle e)) (snd w) = true.
Proof.
  intros I Re St.
  destruct (installed_shown widget thinking w I Re) as [A _].
  assert (K : Forall (stage_ok (fst w)) (snd w)).
  { eapply Forall_impl; [|exact A]. intros x.
    destruct x; cbn [stage_shows stage_ok]; tauto. }
  assert (Keeps : exists keep l,
             chatbox (fst w') = filter keep (chatbox (fst w)) ++ l
             /\ forall e, In e (chatbox (fst w)) -> keep e = false ->
                          existsb (in_flight (handle e)) (snd w) = true).
  { destruct I as [E|[E|[]]]; inversion E; subst.
    - now apply (step_keeps_entries AppStatic_script AppStatic_thinking
                   AppStatic_submit_spec AppStatic_response_spec
                   AppStatic_body_spec
                   (fun m p (I : In m []) => match I with end) w w').
    - now apply (step_keeps_entries Popup_script Popup_thinking
                   Popup_submit_spec Popup_response_spec Popup_body_spec
                   Popup_handler_spec w w'). }
  destruct Keeps as (keep & l & C & F). exists keep, l.
  split; [assumption|]. intros e Ie Ke.
  pose proof (F e Ie Ke) as X. split; [|assumption].
  apply existsb_exists in X. destruct X as (x & Ix & Fx).
  rewrite Forall_forall in A. specialize (A x Ix).
  destruct x as [k| |]; try discriminate Fx.
  cbn [in_flight] in Fx. apply Nat.eqb_eq in Fx. subst k.
  cbn [stage_shows] in A. destruct A as (One & _).
  apply (filter_one (is_node (handle e)) (chatbox (fst w))); auto.
  unfold is_node. apply Nat.eqb_refl.
Qed.

End TranscriptOfTheScripts.

Lemma transcript_is_append_only_witness :
  exists keep l,
    chatbox (exec (Popup.fetch_settled 2 (Rejected failed_to_fetch))
                  first_sent)
    = filter keep (chatbox first_sent) ++ l
    /\ forall e, In e (chatbox first_sent) -> keep e = false ->
                 e = Popup_thinking (handle e)
                 /\ existsb (in_flight (handle e)) [InFlight 2] = true.
Proof.
  apply (transcript_is_append_only Popup_script Popup_thinking
           (first_sent, [InFlight 2])
           (exec (Popup.fetch_settled 2 (Rejected failed_to_fetch))
                 first_sent,
            [Rendered 2 (paragraph 3 error Popup_network)])).
  - right. left. reflexivity.
  - apply (reachable_step Popup_script (typed (js "first"), [])).
    apply (reachable_step Popup_script (template_page, [])).
    + apply reachable_load; reflexivity.
    + apply step_typing.
    + apply (step_submit Popup_script (typed (js "first")) [] 2).
      reflexivity.
  - apply (step_failure Popup_script first_sent [] 2 []
             (Rejected failed_to_fetch)); reflexivity.
Defined.

(** ** No indicator is left behind *)

Section Dots.
Context {engine : Engine}.

Lemma dots_owned_spec (w : world) :
  dots_owned w = true <->
  (forall e, In e (chatbox (fst w)) -> is_dots e = true ->
             existsb (in_flight (handle e)) (snd w) = true).
Proof.
  unfold dots_owned. rewrite forallb_forall. split.
  - intros H e I D. specialize (H e I). now rewrite D in H.
  - intros H e I. destruct (is_dots e) eqn:D; [|reflexivity].
    now apply H.
Qed.

Lemma in_removing (h : nat) (p : page) (e : element) :
  In e (chatbox (removing h p)) -> In e (chatbox p) /\ handle e <> h.
Proof.
  rewrite chatbox_removing. intros I. apply filter_In in I.
  destruct I as [I N]. split; [assumption|].
  apply negb_true_iff in N. unfold is_node in N. now apply Nat.eqb_neq.
Qed.

Lemma in_flight_replaced (k : nat) (xs1 xs2 : list stage) (x x' : stage) :
  in_flight k x = false ->
  existsb (in_flight k) (xs1 ++ x :: xs2) = true ->
  existsb (in_flight k) (xs1 ++ x' :: xs2) = true.
Proof.
  intros N. rewrite !existsb_app. cbn [existsb]. rewrite N.
  intros H. apply orb_true_iff in H. destruct H as [->|H]; [reflexivity|].
  cbn [orb] in H. rewrite H. now rewrite !orb_true_r.
Qed.

Lemma dots_step (w w' : world) :
  Forall (stage_ok (fst w)) (snd w) ->
  dots_owned w = true ->
  step Popup_script w w' ->
  dots_owned w' = true.
Proof.
  rewrite !dots_owned_spec. intros K D St. destruct St as
    [p xs v | p xs m p' I Hm | p xs p' Hs | p xs h p' Hs
    | p xs1 h xs2 o s p' Hr | p xs1 h xs2 o p' t Hr L
    | p xs1 s xs2 j p' t Hb L]; cbn [fst snd] in *.
  - exact D.
  - destruct (Popup_handler_spec m p I) as (q & Hq & C & _).
    rewrite Hq in Hm. inversion Hm; subst. now rewrite C.
  - cbn [Popup_script on_submit] in Hs.
    destruct (Popup_submit_spec p) as [H|H]; rewrite H in Hs;
      inversion Hs; subst. exact D.
  - cbn [Popup_script on_submit] in Hs.
    destruct (Popup_submit_spec p) as [H|H]; rewrite H in Hs;
      inversion Hs; subst.
    cbn [sent chatbox]. intros e I Dt. rewrite existsb_app.
    apply in_app_or in I. destruct I as [I|[<-|[<-|[]]]].
    + now rewrite (D e I Dt).
    + discriminate Dt.
    + cbn. rewrite Nat.eqb_refl. now rewrite !orb_true_r.
  - cbn [Popup_script on_response] in Hr.
    destruct (Popup_response_spec h o p)
      as [(s' & H & E)|(who & text & q & H & Q)];
      rewrite H in Hr; inversion Hr; subst.
    intros e I Dt. apply in_removing in I. destruct I as [I N].
    apply (in_flight_replaced _ xs1 xs2 (InFlight (thinking_of s)));
      [|now apply D].
    cbn. now apply Nat.eqb_neq, not_eq_sym.
  - cbn [Popup_script on_response] in Hr.
    destruct (Popup_response_spec h o p)
      as [(s' & H & E)|(who & text & q & H & Q)];
      rewrite H in Hr; inversion Hr; subst.
    destruct Q as (C & _). cbn [appending chatbox]. rewrite C.
    intros e I Dt. apply in_app_or in I. destruct I as [I|[<-|[]]];
      [|discriminate Dt].
    apply in_removing in I. destruct I as [I N].
    apply (in_flight_replaced _ xs1 xs2 (InFlight h)); [|now apply D].
    cbn. now apply Nat.eqb_neq, not_eq_sym.
  - cbn [Popup_script on_body] in Hb.
    apply Forall_app in K. destruct K as [_ K].
    inversion K as [|? ? Kx _]; subst. cbn [stage_ok] in Kx.
    destruct Kx as [P _].
    destruct (Popup_body_spec s j p P) as (who & text & q & H & C & _).
    rewrite H in Hb. inversion Hb; subst.
    cbn [appending chatbox]. rewrite C.
    intros e I Dt. apply in_app_or in I. destruct I as [I|[<-|[]]];
      [|discriminate Dt].
    apply (in_flight_replaced _ xs1 xs2 (Responded s)); [reflexivity|].
    now apply D.
Qed.

Lemma Popup_stages_ok (w : world) :
  reachable Popup_script w -> Forall (stage_ok (fst w)) (snd w).
Proof.
  intros Re.
  apply (disciplined Popup_script Popup_thinking (fun k => eq_refl)
           Popup_submit_spec Popup_response_spec Popup_body_spec
           Popup_handler_spec w Re).
Qed.

(** X12.  The popup leaves no thinking indicator behind.  From a reachable
    world in which every element of dots in the chat box is the indicator
    of an exchange whose request is out, as at the load of the page, any
    number of steps lead to a world that is so again; hence, when every
    exchange has its terminal entry, the chat box holds no dots. *)
Theorem no_indicator_is_left_behind (w w' : world) :
  reachable Popup_script w ->
  dots_owned w = true ->
  run Popup_script w w' ->
  dots_owned w' = true
  /\ forallb is_rendered (snd w') && existsb is_dots (chatbox (fst w'))
     = false.
Proof.
  intros Re D R.
  assert (D' : dots_owned w' = true).
  { induction R as [w|w w' w'' St _ IH]; [assumption|].
    apply IH.
    - now apply (reachable_step Popup_script w).
    - apply (dots_step w w'); auto. now apply Popup_stages_ok. }
  split; [assumption|].
  destruct (forallb is_rendered (snd w')) eqn:A; [|reflexivity].
  destruct (existsb is_dots (chatbox (fst w'))) eqn:X; [|reflexivity].
  exfalso. apply existsb_exists in X. destruct X as (e & I & Dt).
  rewrite dots_owned_spec in D'. specialize (D' e I Dt).
  apply existsb_exists in D'. destruct D' as (x & Ix & F).
  rewrite forallb_forall in A. specialize (A x Ix).
  destruct x; discriminate.
Qed.

End Dots.

Lemma no_indicator_is_left_behind_witness :
  dots_owned overlapping = true
  /\ forallb is_rendered (snd overlapping)
     && existsb is_dots (chatbox (fst overlapping)) = false.
Proof.
  apply (no_indicator_is_left_behind (template_page, []) overlapping).
  - apply reachable_load; reflexivity.
  - reflexivity.
  - apply (run_step Popup_script _ (typed (js "first"), []));
      [apply step_typing|].
    apply (run_step Popup_script _ (first_sent, [InFlight 2]));
      [apply (step_submit Popup_script (typed (js "first")) [] 2);
       reflexivity|].
    apply (run_step Popup_script _
             (typing (js "second") first_sent, [InFlight 2]));
      [apply step_typing|].
    apply (run_step Popup_script _ (both_sent, [InFlight 2; InFlight 4]));
      [apply (step_submit Popup_script (typing (js "second") first_sent)
                [InFlight 2] 4); reflexivity|].
    apply (run_step Popup_script _
             (second_responded,
              [InFlight 2; Responded (AwaitData 4 response_200)]));
      [apply (step_response Popup_script both_sent [InFlight 2] 4 []
                (Fulfilled response_200)); reflexivity|].
    apply (run_step Popup_script _
             (first_failed,
              [Rendered 2 (paragraph 5 error Popup_network);
               Responded (AwaitData 4 response_200)]));
      [apply (step_failure Popup_script second_responded [] 2
                [Responded (AwaitData 4 response_200)]
                (Rejected failed_to_fetch)); reflexivity|].
    apply (run_step Popup_script _ overlapping);
      [apply (step_body Popup_script first_failed
                [Rendered 2 (paragraph 5 error Popup_network)]
                (AwaitData 4 response_200) [] (Fulfilled hi_there));
       reflexivity|].
    apply run_done.
Defined.

(** ** The entry that ends an exchange depends on its response only *)

Section Verdicts.
Context {engine : Engine}.

(** What ends the exchange is decided by the response and its body, before
    the page is looked at. *)
Lemma AppStatic_body_verdict (s : suspension) (j : settled value) :
  exists who text,
    who <> user
    /\ (who = bot ->
        exists r data v,
          s = AwaitData (thinking_of s) r /\ j = Fulfilled data
          /\ get data (js "reply") = Ok v /\ truthy v = true
          /\ ToString v = Ok text)
    /\ forall p, exists q,
         AppStatic.json_settled s j p = (Ok tt, appending who text q)
         /\ settling (thinking_of s) p q
         /\ (who = bot -> q = p).
Proof.
  destruct s as [h r|h r]; cbn [thinking_of] in *.
  - destruct j as [data|err].
    + destruct (get data (js "error")) as [v|e] eqn:G.
      * destruct (truthy v) eqn:T.
        -- destruct (ToString v) as [t|e] eqn:C.
           ++ exists error, (js "Error: " ++ t). split; [discriminate|].
      split; [intros; discriminate|]. intros p. eexists.
      split; [apply (AppStatic_error_shown h r data v t p G T C)|]. split; [apply settling_logging, settling_start|intros; discriminate].
           ++ exists error, (AppStatic_network e). split; [discriminate|].
      split; [intros; discriminate|]. intros p. eexists.
      split; [apply (AppStatic_error_unprintable h r data v e p G T C)|]. split; [apply settling_caught, settling_logging, settling_start|intros; discriminate].
        -- exists error, (js "Error: " ++ statusText r). split; [discriminate|].
      split; [intros; discriminate|]. intros p. eexists.
      split; [apply (AppStatic_error_fallback h r data v p G T)|]. split; [apply settling_logging, settling_start|intros; discriminate].
      * exists error, (AppStatic_network e). split; [discriminate|].
      split; [intros; discriminate|]. intros p. eexists.
      split; [apply (AppStatic_error_nullish h r data e p G)|]. split; [apply settling_caught, settling_logging, settling_start|intros; discriminate].
    + exists error, (js "Error: " ++ synthesized r). split; [discriminate|].
      split; [intros; discriminate|]. intros p. eexists.
      split; [apply (AppStatic_error_rejected h r err p)|]. split; [apply settling_logging, settling_start|intros; discriminate].
  - destruct j as [data|err].
    + destruct (truthy data) eqn:D.
      * destruct (truthy_get data (js "reply") D) as [v G].
        destruct (truthy v) eqn:T.
        -- destruct (ToString v) as [t|e] eqn:C.
           ++ exists bot, t. split; [discriminate|].
              split; [intros _; now exists r, data, v|].
              intros p. exists p.
              split; [apply (AppStatic_reply_shown h r data v t p G T C)|].
              split; [apply settling_start|reflexivity].
           ++ exists error, (AppStatic_network e). split; [discriminate|].
      split; [intros; discriminate|]. intros p. eexists.
      split; [apply (AppStatic_reply_unprintable h r data v e p G T C)|]. split; [apply settling_caught, settling_dropping, settling_start|intros; discriminate].
        -- exists error, (AppStatic_invalid). split; [discriminate|].
      split; [intros; discriminate|]. intros p. eexists.
      split; [apply (AppStatic_reply_falsy h r data v p G T)|]. split; [apply settling_start|intros; discriminate].
      * exists error, (AppStatic_invalid). split; [discriminate|].
      split; [intros; discriminate|]. intros p. eexists.
      split; [apply (AppStatic_data_falsy h r data p D)|]. split; [apply settling_start|intros; discriminate].
    + exists error, (AppStatic_network err). split; [discriminate|].
      split; [intros; discriminate|]. intros p. eexists.
      split; [apply (AppStatic_data_rejected h r err p)|]. split; [apply settling_caught, settling_start|intros; discriminate].
Qed.

(** What ends the exchange is decided by the response and its body, before
    the page is looked at. *)
Lemma Popup_body_verdict (s : suspension) (j : settled value) :
  exists who text,
    who <> user
    /\ (who = bot ->
        exists r data v,
          s = AwaitData (thinking_of s) r /\ j = Fulfilled data
          /\ get data (js "reply") = Ok v /\ truthy v = true
          /\ ToString v = Ok text)
    /\ forall p, exists q,
         Popup.json_settled s j p = (Ok tt, appending who text q)
         /\ settling (thinking_of s) p q
         /\ (who = bot -> q = p).
Proof.
  destruct s as [h r|h r]; cbn [thinking_of] in *.
  - destruct j as [data|err].
    + destruct (get data (js "error")) as [v|e] eqn:G.
      * destruct (truthy v) eqn:T.
        -- destruct (ToString v) as [t|e] eqn:C.
           ++ exists error, (js "Error: " ++ t). split; [discriminate|].
      split; [intros; discriminate|]. intros p. eexists.
      split; [apply (Popup_error_shown h r data v t p G T C)|]. split; [apply settling_logging, settling_start|intros; discriminate].
           ++ exists error, (Popup_network). split; [discriminate|].
      split; [intros; discriminate|]. intros p. eexists.
      split; [apply (Popup_error_unprintable h r data v e p G T C)|]. split; [apply settling_caught, settling_logging, settling_start|intros; discriminate].
        -- exists error, (js "Error: " ++ statusText r). split; [discriminate|].
      split; [intros; discriminate|]. intros p. eexists.
      split; [apply (Popup_error_fallback h r data v p G T)|]. split; [apply settling_logging, settling_start|intros; discriminate].
      * exists error, (Popup_network). split; [discriminate|].
      split; [intros; discriminate|]. intros p. eexists.
      split; [apply (Popup_error_nullish h r data e p G)|]. split; [apply settling_caught, settling_logging, settling_start|intros; discriminate].
    + exists error, (js "Error: " ++ synthesized r). split; [discriminate|].
      split; [intros; discriminate|]. intros p. eexists.
      split; [apply (Popup_error_rejected h r err p)|]. split; [apply settling_logging, settling_start|intros; discriminate].
  - destruct j as [data|err].
    + destruct (truthy data) eqn:D.
      * destruct (truthy_get data (js "reply") D) as [v G].
        destruct (truthy v) eqn:T.
        -- destruct (ToString v) as [t|e] eqn:C.
           ++ exists bot, t. split; [discriminate|].
              split; [intros _; now exists r, data, v|].
              intros p. exists p.
              split; [apply (Popup_reply_shown h r data v t p G T C)|].
              split; [apply settling_start|reflexivity].
           ++ exists error, (Popup_network). split; [discriminate|].
      split; [intros; discriminate|]. intros p. eexists.
      split; [apply (Popup_reply_unprintable h r data v e p G T C)|]. split; [apply settling_caught, settling_dropping, settling_start|intros; discriminate].
        -- exists error, (Popup_invalid). split; [discriminate|].
      split; [intros; discriminate|]. intros p. eexists.
      split; [apply (Popup_reply_falsy h r data v p G T)|]. split; [apply settling_start|intros; discriminate].
      * exists error, (Popup_invalid). split; [discriminate|].
      split; [intros; discriminate|]. intros p. eexists.
      split; [apply (Popup_data_falsy h r data p D)|]. split; [apply settling_start|intros; discriminate].
    + exists error, (Popup_network). split; [discriminate|].
      split; [intros; discriminate|]. intros p. eexists.
      split; [apply (Popup_data_rejected h r err p)|]. split; [apply settling_caught, settling_start|intros; discriminate].
Qed.

(** X13.  Overlapping exchanges do not change each other's answer: the
    class and the text of the entry that ends an exchange are the same on
    whatever page its last segment runs; they depend on the response and
    its body, or on the failure of the request, alone. *)
Theorem answer_depends_on_the_response_only (s : suspension)
    (j : settled value) (h1 h2 : nat) (err : exception) (p1 p2 : page)
    (e1 e2 : element) :
  (lastChild (exec (AppStatic.json_settled s j) p1) = Some e1
   /\ lastChild (exec (AppStatic.json_settled s j) p2) = Some e2)
  \/ (lastChild (exec (Popup.json_settled s j) p1) = Some e1
      /\ lastChild (exec (Popup.json_settled s j) p2) = Some e2)
  \/ (lastChild (exec (AppStatic.fetch_settled h1 (Rejected err)) p1)
      = Some e1
      /\ lastChild (exec (AppStatic.fetch_settled h2 (Rejected err)) p2)
         = Some e2)
  \/ (lastChild (exec (Popup.fetch_settled h1 (Rejected err)) p1) = Some e1
      /\ lastChild (exec (Popup.fetch_settled h2 (Rejected err)) p2)
         = Some e2) ->
  sender_class e1 = sender_class e2 /\ inner e1 = inner e2.
Proof.
  unfold exec. intros [[L1 L2]|[[L1 L2]|[[L1 L2]|[L1 L2]]]].
  - destruct (AppStatic_body_verdict s j) as (who & text & _ & _ & V).
    destruct (V p1) as (q1 & H1 & _). destruct (V p2) as (q2 & H2 & _).
    rewrite H1 in L1. rewrite H2 in L2. cbn [snd] in *.
    rewrite lastChild_appending in L1, L2.
    inversion L1; inversion L2; subst. now split.
  - destruct (Popup_body_verdict s j) as (who & text & _ & _ & V).
    destruct (V p1) as (q1 & H1 & _). destruct (V p2) as (q2 & H2 & _).
    rewrite H1 in L1. rewrite H2 in L2. cbn [snd] in *.
    rewrite lastChild_appending in L1, L2.
    inversion L1; inversion L2; subst. now split.
  - rewrite AppStatic_fetch_rejected in L1, L2. unfold AppStatic_caught in *.
    cbn [snd] in *. rewrite lastChild_appending in L1, L2.
    inversion L1; inversion L2; subst. now split.
  - rewrite Popup_fetch_rejected in L1, L2. unfold Popup_caught in *.
    cbn [snd] in *. rewrite lastChild_appending in L1, L2.
    inversion L1; inversion L2; subst. now split.
Qed.

(** X14.  A second [sendMessage] right after the first one, as a double
    click on the send button gives, does nothing: the first one has emptied
    the input field, or has found it empty. *)
Theorem sendMessage_twice_sends_once (p : page) :
  AppStatic.sendMessage (exec AppStatic.sendMessage p)
  = (Ok None, exec AppStatic.sendMessage p)
  /\ Popup.sendMessage (exec Popup.sendMessage p)
     = (Ok None, exec Popup.sendMessage p).
Proof.
  unfold exec. split.
  - destruct (AppStatic_submit_spec p) as [H|H]; rewrite H; cbn [snd].
    + exact H.
    + now apply AppStatic_sendMessage_empty.
  - destruct (Popup_submit_spec p) as [H|H]; rewrite H; cbn [snd].
    + exact H.
    + now apply Popup_sendMessage_empty.
Qed.

End Verdicts.

Lemma answer_depends_on_the_response_only_witness :
  sender_class (paragraph 3 bot (js "Hi there"))
  = sender_class (paragraph 6 bot (js "Hi there"))
  /\ inner (paragraph 3 bot (js "Hi there"))
     = inner (paragraph 6 bot (js "Hi there")).
Proof.
  apply (answer_depends_on_the_response_only
           (AwaitData 4 response_200) (Fulfilled hi_there) 0 0 not_json
           (exec (Popup.fetch_settled 2 (Fulfilled response_200))
                 (exec Popup.sendMessage (typed (js "hello"))))
           first_failed).
  right. left. split; reflexivity.
Defined.
